(** * ImageDuplicateDetector: a shallow embedding of the perceptual-hash
    duplicate detector (image-duplicate-detector/ImageDuplicateDetector.php)

    The PHP class is embedded function by function.  PHP strings are byte
    strings ([string]); PHP numbers are either integers or IEEE-754 binary64
    values ([number]); the upload directory is a finite map from paths to
    files and the [images] table is the list of its rows in primary-key
    order together with the AUTO_INCREMENT counter.  A PHP function that can
    throw returns a [Result]. *)

From Stdlib Require Import ZArith Ascii String SpecFloat.
From stdpp Require Import base list strings pretty gmap.

Open Scope string_scope.
Open Scope Z_scope.

(* ================================================================== *)
(** ** Results of PHP calls *)

(** [Return v] is a normal return, [Throw msg] an uncaught
    [Exception(msg)]. *)
Inductive Result (A : Type) : Type :=
| Return (v : A)
| Throw (msg : string).
Arguments Return {A} v.
Arguments Throw {A} msg.

(* ================================================================== *)
(** ** PHP string and conversion built-ins *)

Module Php.

(** [$s[$i]]: the one-byte string at offset [i] (empty when out of range). *)
Definition str_at (s : string) (i : nat) : string :=
  match String.get i s with
  | Some c => String c ""
  | None => ""
  end.

(** [substr($s, $i, $n)] for [0 <= i]: at most [n] bytes from offset [i]. *)
Fixpoint substr (s : string) (i n : nat) : string :=
  match s with
  | "" => ""
  | String c r =>
      match i with
      | S i' => substr r i' n
      | O => match n with
             | O => ""
             | S n' => String c (substr r O n')
             end
      end
  end.

(** Value of one hexadecimal digit, [None] for any other byte. *)
Definition hex_value (c : ascii) : option Z :=
  let n := Z.of_N (N_of_ascii c) in
  if (48 <=? n) && (n <=? 57) then Some (n - 48)
  else if (97 <=? n) && (n <=? 102) then Some (n - 87)
  else if (65 <=? n) && (n <=? 70) then Some (n - 55)
  else None.

(** [hexdec]: bytes that are not hexadecimal digits are skipped. *)
Fixpoint hexdec_from (acc : Z) (s : string) : Z :=
  match s with
  | "" => acc
  | String c r =>
      match hex_value c with
      | Some v => hexdec_from (16 * acc + v) r
      | None => hexdec_from acc r
      end
  end.
Definition hexdec (s : string) : Z := hexdec_from 0 s.

(** [bindec]: bytes other than '0' and '1' are skipped. *)
Fixpoint bindec_from (acc : Z) (s : string) : Z :=
  match s with
  | "" => acc
  | String c r =>
      if Ascii.eqb c "0" then bindec_from (2 * acc) r
      else if Ascii.eqb c "1" then bindec_from (2 * acc + 1) r
      else bindec_from acc r
  end.
Definition bindec (s : string) : Z := bindec_from 0 s.

Definition hex_digit (n : Z) : ascii :=
  if n <? 10 then ascii_of_N (Z.to_N (48 + n)) else ascii_of_N (Z.to_N (87 + n)).

(** [dechex]: lower-case digits, no leading zeros; the argument is read as
    an unsigned 64-bit integer, so sixteen digits are always enough. *)
Fixpoint dechex_from (fuel : nat) (n : Z) (acc : string) : string :=
  if n <? 16 then String (hex_digit n) acc
  else match fuel with
       | O => acc
       | S fuel' => dechex_from fuel' (n / 16) (String (hex_digit (n mod 16)) acc)
       end.
Definition dechex (n : Z) : string := dechex_from 16 (n mod 2 ^ 64) "".

End Php.

(* ================================================================== *)
(** ** PHP numbers *)

(** A PHP number is an [int] or a [float]; floats are IEEE-754 binary64,
    taken from the specification of the standard library ([SpecFloat],
    precision 53, exponent bound 1024, round to nearest even). *)
Inductive number : Type :=
| PInt (z : Z)
| PFloat (f : spec_float).

Module Num.

Definition prec : Z := 53.
Definition emax : Z := 1024.

Definition PHP_INT_MAX : Z := 2 ^ 63 - 1.
Definition PHP_INT_MIN : Z := - 2 ^ 63.

(** [(float)$i] *)
Definition of_int (z : Z) : spec_float := binary_normalize prec emax z 0 false.

Definition to_float (n : number) : spec_float :=
  match n with
  | PInt z => of_int z
  | PFloat f => f
  end.

(** [$a + $b]: integer addition stays an integer unless it overflows. *)
Definition add (a b : number) : number :=
  match a, b with
  | PInt x, PInt y =>
      if (PHP_INT_MIN <=? x + y) && (x + y <=? PHP_INT_MAX) then PInt (x + y)
      else PFloat (SFadd prec emax (of_int x) (of_int y))
  | _, _ => PFloat (SFadd prec emax (to_float a) (to_float b))
  end.

(** [$a / $b]: an integer when both operands are integers and the division
    is exact, a float otherwise.  (The divisors of this program are the
    constants 3 and [count($pixels)]; a zero divisor is left to the float
    division.) *)
Definition div (a b : number) : number :=
  match a, b with
  | PInt x, PInt y =>
      if negb (y =? 0) && (Z.rem x y =? 0) then PInt (Z.quot x y)
      else PFloat (SFdiv prec emax (of_int x) (of_int y))
  | _, _ => PFloat (SFdiv prec emax (to_float a) (to_float b))
  end.

(** [$a - $b] and [$a * $b], with the same integer/float split. *)
Definition sub (a b : number) : number :=
  match a, b with
  | PInt x, PInt y =>
      if (PHP_INT_MIN <=? x - y) && (x - y <=? PHP_INT_MAX) then PInt (x - y)
      else PFloat (SFsub prec emax (of_int x) (of_int y))
  | _, _ => PFloat (SFsub prec emax (to_float a) (to_float b))
  end.

Definition mul (a b : number) : number :=
  match a, b with
  | PInt x, PInt y =>
      if (PHP_INT_MIN <=? x * y) && (x * y <=? PHP_INT_MAX) then PInt (x * y)
      else PFloat (SFmul prec emax (of_int x) (of_int y))
  | _, _ => PFloat (SFmul prec emax (to_float a) (to_float b))
  end.

(** [$a > $b] *)
Definition gt (a b : number) : bool :=
  match a, b with
  | PInt x, PInt y => y <? x
  | _, _ => SFltb (to_float b) (to_float a)
  end.

(** [array_sum]: left-to-right accumulation starting from integer 0. *)
Definition array_sum (l : list number) : number := fold_left add l (PInt 0).

(** [count] *)
Definition count (l : list number) : number := PInt (Z.of_nat (length l)).

End Num.

(* ================================================================== *)
(** ** hammingDistance *)

(** The inner loop [while ($xor) { $distance++; $xor &= $xor - 1; }] on the
    pair [($xor, $distance)]. *)
Definition clear_lowest (st : Z * Z) : Z * Z :=
  (Z.land (fst st) (fst st - 1), snd st + 1).

Fixpoint while_xor (fuel : nat) (st : Z * Z) : Z * Z :=
  match fuel with
  | O => st
  | S fuel' => if fst st =? 0 then st else while_xor fuel' (clear_lowest st)
  end.

(** Every iteration strictly decreases a positive [$xor], so [$xor]
    iterations are enough (see [while_xor_exits]). *)
Definition countSetBits (xor distance : Z) : Z :=
  snd (while_xor (Z.to_nat xor) (xor, distance)).

(** The outer loop [for ($i = 0; $i < strlen($hash1); $i++)]; [n] is the
    number of iterations left, [strlen($hash1) - $i]. *)
Fixpoint hamming_loop (n : nat) (i : nat) (hash1 hash2 : string) (distance : Z) : Z :=
  match n with
  | O => distance
  | S n' =>
      let val1 := Php.hexdec (Php.str_at hash1 i) in
      let val2 := Php.hexdec (Php.str_at hash2 i) in
      let xor := Z.lxor val1 val2 in
      hamming_loop n' (S i) hash1 hash2 (countSetBits xor distance)
  end.

Definition hammingDistance (hash1 hash2 : string) : Result Z :=
  if negb (String.length hash1 =? String.length hash2)%nat
  then Throw "Hashes must be the same length"
  else Return (hamming_loop (String.length hash1) 0 hash1 hash2 0).

(* ================================================================== *)
(** ** Files, GD images and generateHash *)

(** A decoded GD image, observed the way [generateHash] observes it:
    [gd_resampled img x y] is [imagecolorat($resized, $x, $y)] of the
    [hashSize] x [hashSize] true-colour copy that [imagecopyresampled]
    makes of the image. *)
Record GdImage : Type := { gd_resampled : Z -> Z -> Z }.

(** A file, observed through the library calls the class makes on it. *)
Record File : Type := {
  finfo_mime : string;                (* finfo_file(FILEINFO_MIME_TYPE) *)
  getimagesize_mime : option string;  (* getimagesize()['mime'], None for false *)
  gd_decode : option GdImage;         (* imagecreatefrom...(), None for false *)
  file_bytes : Z                      (* filesize() *)
}.

Definition hashSize : nat := 8.

(** [loadImage] *)
Definition loadImage (files : gmap string File) (path : string) : option GdImage :=
  match files !! path with
  | None => None
  | Some f =>
      match getimagesize_mime f with
      | None => None
      | Some mime =>
          if String.eqb mime "image/jpeg" then gd_decode f
          else if String.eqb mime "image/png" then gd_decode f
          else if String.eqb mime "image/gif" then gd_decode f
          else if String.eqb mime "image/webp" then gd_decode f
          else None
      end
  end.

(** Body of the two pixel loops: one grey value from a packed colour. *)
Definition grayscale (rgb : Z) : number :=
  let r := Z.land (Z.shiftr rgb 16) 255 in
  let g := Z.land (Z.shiftr rgb 8) 255 in
  let b := Z.land rgb 255 in
  Num.div (PInt (r + g + b)) (PInt 3).

(** [for ($y ...) for ($x ...) $pixels[] = $gray;] *)
Definition read_pixels (resized : Z -> Z -> Z) : list number :=
  flat_map (fun y =>
    map (fun x => grayscale (resized (Z.of_nat x) (Z.of_nat y))) (seq 0 hashSize))
    (seq 0 hashSize).

(** [foreach ($pixels as $pixel) $hash .= ($pixel > $average) ? '1' : '0';] *)
Definition threshold_bits (pixels : list number) (average : number) : string :=
  fold_left (fun hash pixel => hash ++ (if Num.gt pixel average then "1" else "0"))
            pixels "".

(** [for ($i = 0; $i < strlen($hash); $i += 4)
       $hexHash .= dechex(bindec(substr($hash, $i, 4)));]
    The loop runs at most [strlen($hash)] times. *)
Fixpoint hex_loop (fuel : nat) (i : nat) (hash hexHash : string) : string :=
  match fuel with
  | O => hexHash
  | S fuel' =>
      if (i <? String.length hash)%nat
      then hex_loop fuel' (i + 4) hash
             (hexHash ++ Php.dechex (Php.bindec (Php.substr hash i 4)))
      else hexHash
  end.

Definition bin_to_hex (hash : string) : string :=
  hex_loop (String.length hash) 0 hash "".

Definition generateHash (files : gmap string File) (imagePath : string) : Result string :=
  match loadImage files imagePath with
  | None => Throw ("Failed to load image: " ++ imagePath)
  | Some img =>
      let resized := gd_resampled img in
      let pixels := read_pixels resized in
      let average := Num.div (Num.array_sum pixels) (Num.count pixels) in
      let hash := threshold_bits pixels average in
      Return (bin_to_hex hash)
  end.

(* ================================================================== *)
(** ** The images table and findDuplicate *)

Record Row : Type := {
  id : Z;
  filename : string;
  file_path : string;
  phash : string;
  mime_type : string;
  file_size : Z;
  upload_date : string
}.

(** The file store and the [images] table (rows in primary-key order,
    which is the order a full scan of the table returns them in). *)
Record State : Type := {
  fs : gmap string File;
  images : list Row;
  auto_increment : Z
}.

(** The array [findDuplicate] returns for a duplicate. *)
Record Match : Type := {
  duplicate : bool;
  match_id : Z;
  match_filename : string;
  match_file_path : string;
  match_upload_date : string;
  similarity : number;
  hamming_distance : Z
}.

Definition make_match (row : Row) (distance : Z) : Match :=
  {| duplicate := true;
     match_id := id row;
     match_filename := filename row;
     match_file_path := file_path row;
     match_upload_date := upload_date row;
     similarity :=
       Num.sub (PInt 100) (Num.div (Num.mul (PInt distance) (PInt 100)) (PInt 64));
     hamming_distance := distance |}.

(** [while ($row = $stmt->fetch(...))] over the rows of the table. *)
Fixpoint scan_rows (hash : string) (threshold : Z) (rows : list Row)
  : Result (option Match) :=
  match rows with
  | [] => Return None
  | row :: rest =>
      match hammingDistance hash (phash row) with
      | Throw msg => Throw msg
      | Return distance =>
          if distance <=? threshold
          then Return (Some (make_match row distance))
          else scan_rows hash threshold rest
      end
  end.

Definition findDuplicate (st : State) (imagePath : string) (threshold : Z)
  : Result (option Match) :=
  match generateHash (fs st) imagePath with
  | Throw msg => Throw msg
  | Return hash => scan_rows hash threshold (images st)
  end.

(** Default value of [$threshold]. *)
Definition default_threshold : Z := 5.

(* ================================================================== *)
(** ** saveImage and deleteImage *)

(** The detector object: [$this->uploadDir] (it ends in a slash). *)
Record Detector : Type := { uploadDir : string }.

(** One element of [$_FILES]. *)
Record Upload : Type := {
  name : string;
  tmp_name : string;
  error : Z
}.

Definition UPLOAD_ERR_OK : Z := 0.

(** What the surroundings decide during one call of [saveImage]: the value
    of [uniqid('img_', true)], whether [move_uploaded_file] succeeds, the
    message of the exception with which the INSERT fails (if it does) and
    the value of [NOW()]. *)
Record Env : Type := {
  uniqid : string;
  move_ok : bool;
  insert_error : option string;
  now : string
}.

(** The arrays [saveImage] returns. *)
Inductive SaveResult : Type :=
| SaveFailed (error_message : string)
| SaveDuplicate (error_message : string) (found : Match)
| SaveOk (new_id : Z) (stored_name original_name hash : string).

Definition allowedTypes : list string :=
  ["image/jpeg"; "image/png"; "image/gif"; "image/webp"].

(** [in_array($mimeType, $allowedTypes)]; [finfo_file] gives [false] for a
    missing file, which is in no list of non-empty strings. *)
Definition in_array (mimeType : option string) (types : list string) : bool :=
  match mimeType with
  | Some m => existsb (String.eqb m) types
  | None => false
  end.

Definition finfo_file (files : gmap string File) (path : string) : option string :=
  finfo_mime <$> files !! path.

(** The part of [s] after the last byte [c], if [c] occurs. *)
Fixpoint after_last (c : ascii) (s : string) (found : option string) : option string :=
  match s with
  | "" => found
  | String a r => if Ascii.eqb a c then after_last c r (Some r) else after_last c r found
  end.

(** [rtrim($s, $c)] for a one-byte character list: every trailing [c] is
    stripped. *)
Fixpoint rtrim (s : string) (c : ascii) : string :=
  match s with
  | EmptyString => EmptyString
  | String a r =>
      match rtrim r c with
      | EmptyString => if Ascii.eqb a c then EmptyString else String a EmptyString
      | r' => String a r'
      end
  end.

(** [pathinfo($name, PATHINFO_EXTENSION)]: the base name is what follows
    the last slash once trailing slashes are stripped; the extension is
    what follows the last dot of the base name, the empty string when it
    has no dot. *)
Definition pathinfo_extension (file_name : string) : string :=
  let trimmed := rtrim file_name "/" in
  let base := default trimmed (after_last "/" trimmed None) in
  default "" (after_last "." base None).

(** [move_uploaded_file($from, $to)]: [None] for [false]. *)
Definition move_uploaded_file (env : Env) (files : gmap string File) (from to : string)
  : option (gmap string File) :=
  match files !! from with
  | Some f => if move_ok env then Some (<[to := f]> (delete from files)) else None
  | None => None
  end.

(** [unlink] *)
Definition unlink (path : string) (st : State) : State :=
  {| fs := delete path (fs st); images := images st; auto_increment := auto_increment st |}.

(** The INSERT statement: the new row gets the next AUTO_INCREMENT id. *)
Definition insert_row (st : State) (row : Row) : State :=
  {| fs := fs st;
     images := images st ++ [row];
     auto_increment := auto_increment st + 1 |}.

Definition saveImage (this : Detector) (env : Env) (st : State)
    (file : Upload) (allowDuplicates : bool) : Result SaveResult * State :=
  if negb (error file =? UPLOAD_ERR_OK) then
    (Return (SaveFailed ("Upload error: " ++ pretty (error file))), st)
  else
    let mimeType := finfo_file (fs st) (tmp_name file) in
    if negb (in_array mimeType allowedTypes) then
      (Return (SaveFailed "Invalid image type. Only JPEG, PNG, GIF, and WebP allowed."), st)
    else
      match (if negb allowDuplicates
             then findDuplicate st (tmp_name file) default_threshold
             else Return None) with
      | Throw msg => (Throw msg, st)
      | Return (Some dup) => (Return (SaveDuplicate "Duplicate image detected" dup), st)
      | Return None =>
          let extension := pathinfo_extension (name file) in
          let new_name := uniqid env ++ "." ++ extension in
          let filepath := uploadDir this ++ new_name in
          match move_uploaded_file env (fs st) (tmp_name file) filepath with
          | None => (Return (SaveFailed "Failed to save image"), st)
          | Some files' =>
              let st1 := {| fs := files'; images := images st;
                            auto_increment := auto_increment st |} in
              match generateHash (fs st1) filepath with
              | Throw msg =>
                  (Return (SaveFailed ("Database error: " ++ msg)), unlink filepath st1)
              | Return hash =>
                  match insert_error env with
                  | Some msg =>
                      (Return (SaveFailed ("Database error: " ++ msg)), unlink filepath st1)
                  | None =>
                      let row := {| id := auto_increment st1;
                                    filename := name file;
                                    file_path := new_name;
                                    phash := hash;
                                    mime_type := default "" mimeType;
                                    file_size := default 0 (file_bytes <$> fs st1 !! filepath);
                                    upload_date := now env |} in
                      (Return (SaveOk (auto_increment st1) new_name (name file) hash),
                       insert_row st1 row)
                  end
              end
          end
      end.

(** [deleteImage] *)
Definition deleteImage (this : Detector) (st : State) (id0 : Z) : bool * State :=
  match find (fun row => id row =? id0) (images st) with
  | None => (false, st)
  | Some image =>
      let filepath := uploadDir this ++ file_path image in
      let files' := if decide (is_Some (fs st !! filepath))
                    then delete filepath (fs st) else fs st in
      (true, {| fs := files';
                images := filter (fun row => id row ≠ id0) (images st);
                auto_increment := auto_increment st |})
  end.

(* ================================================================== *)
(** ** The constructor and getAllImages *)

(** [__construct]: the detector keeps [rtrim($uploadDir, '/') . '/'].
    (The [mkdir] of a missing directory has no counterpart here: the file
    store is a flat map from paths to files.) *)
Definition construct (dir : string) : Detector :=
  {| uploadDir := rtrim dir "/" ++ "/" |}.

(** One row of [getAllImages]: the selected columns. *)
Record ImageInfo : Type := {
  info_id : Z;
  info_filename : string;
  info_file_path : string;
  info_mime_type : string;
  info_file_size : Z;
  info_upload_date : string
}.

Definition select_info (row : Row) : ImageInfo :=
  {| info_id := id row;
     info_filename := filename row;
     info_file_path := file_path row;
     info_mime_type := mime_type row;
     info_file_size := file_size row;
     info_upload_date := upload_date row |}.

(** [getAllImages($limit, $offset)] for non-negative arguments.
    [by_date_desc] is the order in which the server returns the rows of
    the table for [ORDER BY upload_date DESC]. *)
Definition getAllImages (by_date_desc : list Row -> list Row) (st : State)
    (limit offset : nat) : list ImageInfo :=
  map select_info (take limit (drop offset (by_date_desc (images st)))).

(* ================================================================== *)
(** ** config.php: the admin session *)

(** [$_SESSION]; the only key this code uses is ['authenticated']. *)
Definition isAuthenticated (session : gmap string bool) : bool :=
  bool_decide (session !! "authenticated" = Some true).

Definition authenticate (ADMIN_PASSWORD password : string) (session : gmap string bool)
  : bool * gmap string bool :=
  if String.eqb password ADMIN_PASSWORD
  then (true, <["authenticated" := true]> session)
  else (false, session).

(** [logout]: the key is unset and the session destroyed. *)
Definition logout (session : gmap string bool) : gmap string bool := ∅.

(* ================================================================== *)
(** ** admin.php: the request handler *)

(** What the script reads of a request: [isset($_GET['logout'])],
    [$_SERVER['REQUEST_METHOD']], [$_POST['password']],
    [$_POST['delete_id']] (as the number the server compares with the id
    column) and [intval($_GET['page'])] (a PHP integer). *)
Record Request : Type := {
  get_logout : bool;
  request_method : string;
  post_password : option string;
  post_delete_id : option Z;
  get_page : option Z
}.

(** What the script answers: a redirect, the login form (with
    [$loginError] when set) or the gallery with [$page], [$images],
    [$totalImages] and [$totalPages]. *)
Inductive Page : Type :=
| Redirect (location : string)
| LoginForm (loginError : option string)
| Gallery (page : Z) (shown : list ImageInfo) (totalImages : Z) (totalPages : number).

Definition perPage : Z := 20.

(** [ceil]: the result is always a float. *)
Definition ceil (n : number) : number :=
  match n with
  | PInt z => PFloat (Num.of_int z)
  | PFloat f =>
      PFloat
        match f with
        | S754_finite s m e =>
            if 0 <=? e then f
            else
              let q := Z.pos m / 2 ^ (- e) in
              let r := Z.pos m mod 2 ^ (- e) in
              if s then (if q =? 0 then S754_zero true else Num.of_int (- q))
              else Num.of_int (if r =? 0 then q else q + 1)
        | _ => f
        end
  end.

(** [$offset = ($page - 1) * $perPage] is a PHP product: beyond the
    integer range it is a float.  [offset_of_float] is the row offset that
    driver and server make of such a float bound to [:offset]. *)
Definition admin (ADMIN_PASSWORD UPLOAD_DIR : string)
    (by_date_desc : list Row -> list Row) (offset_of_float : spec_float -> nat)
    (session : gmap string bool) (st : State) (req : Request)
  : Page * gmap string bool * State :=
  if get_logout req then (Redirect "admin.php", logout session, st)
  else
    let login :=
      if String.eqb (request_method req) "POST" then
        match post_password req with
        | Some password => Some (authenticate ADMIN_PASSWORD password session)
        | None => None
        end
      else None in
    match login with
    | Some (true, session') => (Redirect "admin.php", session', st)
    | _ =>
        let loginError :=
          match login with Some _ => Some "Invalid password" | None => None end in
        if negb (isAuthenticated session) then (LoginForm loginError, session, st)
        else
          match post_delete_id req with
          | Some delete_id =>
              let detector := construct UPLOAD_DIR in
              (Redirect "admin.php", session, (deleteImage detector st delete_id).2)
          | None =>
              let detector := construct UPLOAD_DIR in
              let page := match get_page req with
                          | Some p => Z.max 1 p
                          | None => 1
                          end in
              let offset := Num.mul (Num.sub (PInt page) (PInt 1)) (PInt perPage) in
              let shown :=
                getAllImages by_date_desc st (Z.to_nat perPage)
                  match offset with
                  | PInt rows => Z.to_nat rows
                  | PFloat rows => offset_of_float rows
                  end in
              let totalImages := Z.of_nat (length (images st)) in
              let totalPages := ceil (Num.div (PInt totalImages) (PInt perPage)) in
              (Gallery page shown totalImages totalPages, session, st)
          end
    end.

(* ================================================================== *)
(** ** The integration example uploadWithCustomThreshold *)

Definition uploadWithCustomThreshold (this : Detector) (env : Env) (st : State)
    (file : Upload) (threshold : Z) : Result SaveResult * State :=
  match findDuplicate st (tmp_name file) threshold with
  | Throw msg => (Throw msg, st)
  | Return (Some dup) => (Return (SaveDuplicate "Duplicate detected" dup), st)
  | Return None => saveImage this env st file false
  end.

(* ================================================================== *)
(** * Reference definitions *)

(** The four bits a hexadecimal digit stands for, most significant first
    (a byte that is no digit counts as 0, as [hexdec] reads it). *)
Definition bits4 (v : Z) : list bool :=
  [Z.testbit v 3; Z.testbit v 2; Z.testbit v 1; Z.testbit v 0].

Definition nibble_bits (c : ascii) : list bool :=
  bits4 (Php.hexdec (String c "")).

(** The bit sequence a stored hash denotes. *)
Fixpoint fingerprint_bits (h : string) : list bool :=
  match h with
  | "" => []
  | String c r => nibble_bits c ++ fingerprint_bits r
  end.

(** Reference distance: the number of positions [i] with [a[i] <> b[i]]. *)
Fixpoint differing (a b : list bool) : Z :=
  match a, b with
  | x :: a', y :: b' => (if xorb x y then 1 else 0) + differing a' b'
  | _, _ => 0
  end.

(** The string of '0' and '1' bytes for a bit sequence. *)
Fixpoint bit_string (bits : list bool) : string :=
  match bits with
  | [] => ""
  | b :: r => String (if b then "1" else "0")%char (bit_string r)
  end.

(** The encoding [generateHash] gives a bit sequence: the '0'/'1' string
    built by appending, then the binary-to-hex loop. *)
Definition hex_encoding (bits : list bool) : string :=
  bin_to_hex (fold_left (fun hash (b : bool) => hash ++ (if b then "1" else "0")) bits "").

(** The hex loop read chunk by chunk: one digit (or more, for a chunk
    that is no binary numeral below 16) for every four bytes. *)
Fixpoint hex_chunks (s : string) : string :=
  match s with
  | "" => ""
  | String a (String b (String c (String d r))) =>
      Php.dechex (Php.bindec (String a (String b (String c (String d ""))))) ++ hex_chunks r
  | short => Php.dechex (Php.bindec short)
  end.

(** The digit [dechex(bindec(...))] makes of four bits. *)
Definition nibble_char (a b c d : bool) : ascii :=
  Php.hex_digit (8 * Z.b2z a + 4 * Z.b2z b + 2 * Z.b2z c + Z.b2z d).

(** The colour channels of a packed colour (0 blue, 1 green, 2 red). *)
Definition channel (rgb : Z) (k : Z) : Z := (rgb / 256 ^ k) mod 256.

(** The grey values and the average as [generateHash] computes them,
    written over the channels: PHP numbers, the average being the
    left-to-right [array_sum] of the 64 grey values divided by 64 in PHP's
    arithmetic (floating point as soon as one grey value is no integer). *)
Definition intensity (rgb : Z) : number :=
  Num.div (PInt (channel rgb 2 + channel rgb 1 + channel rgb 0)) (PInt 3).

Definition cell_intensity (img : GdImage) (x y : nat) : number :=
  intensity (gd_resampled img (Z.of_nat x) (Z.of_nat y)).

Definition grid_cells : list (nat * nat) :=
  y ← seq 0 8; x ← seq 0 8; [(x, y)].

Definition computed_mean (img : GdImage) : number :=
  Num.div (Num.array_sum (map (fun c => cell_intensity img c.1 c.2) grid_cells))
          (PInt 64).

(** The average hash in exact arithmetic.  A cell with channel sum [s] has
    intensity [s / 3]; the mean over the 64 cells is the sum of all
    channel sums divided by [3 * 64]; so a cell lies strictly above the
    mean exactly when 64 times its channel sum exceeds the sum of all
    channel sums. *)
Definition channel_sum (img : GdImage) (x y : nat) : Z :=
  let rgb := gd_resampled img (Z.of_nat x) (Z.of_nat y) in
  channel rgb 2 + channel rgb 1 + channel rgb 0.

Definition grid_total (img : GdImage) : Z :=
  fold_right Z.add 0 (map (fun c => channel_sum img c.1 c.2) grid_cells).

Definition exact_above_mean (img : GdImage) (x y : nat) : bool :=
  grid_total img <? 64 * channel_sum img x y.

(** A finite check: for an integer sum [S] of 64 grey values that is no
    multiple of 64, the float [S / 64] compares with every integer grey
    value as the exact quotient does. *)
Definition grey_table : list (Z * spec_float) :=
  map (fun k => (k, Num.of_int k)) (seqZ 0 256).

Definition check_sum (S : Z) : bool :=
  if S mod 64 =? 0 then true
  else
    let average := SFdiv Num.prec Num.emax (Num.of_int S) (Num.of_int 64) in
    forallb (fun grey => Bool.eqb (SFltb average grey.2) (S <? 64 * grey.1)) grey_table.

Fixpoint all_below (n : nat) (P : Z -> bool) : bool :=
  match n with
  | O => true
  | S n' => P (Z.of_nat n') && all_below n' P
  end.

(** A stored row within, or beyond, the threshold of a candidate hash. *)
Definition within (hash : string) (threshold : Z) (row : Row) : Prop :=
  exists d, hammingDistance hash (phash row) = Return d /\ d <= threshold.

Definition beyond (hash : string) (threshold : Z) (row : Row) : Prop :=
  exists d, hammingDistance hash (phash row) = Return d /\ threshold < d.

(** C1 as it is worded: no match when no stored fingerprint is within the
    threshold, and otherwise a match whose reported distance is the least
    distance from the candidate to any stored fingerprint. *)
Definition returns_best_match (st : State) (path : string) (t : Z) : Prop :=
  forall f,
    generateHash (fs st) path = Return f ->
    ((forall r, r ∈ images st -> ~ within f t r) ->
       findDuplicate st path t = Return None) /\
    ((exists r, r ∈ images st /\ within f t r) ->
       exists m,
         findDuplicate st path t = Return (Some m) /\
         forall r d, r ∈ images st -> hammingDistance f (phash r) = Return d ->
                     hamming_distance m <= d).

(** C2 as it is worded: after a successful save that went through the
    duplicate check, looking the stored image up with any threshold
    [t >= 0] gives a match at distance 0. *)
Definition self_match_at_zero (this : Detector) (env : Env) (st : State)
    (file : Upload) (t : Z) : Prop :=
  forall new_id stored_name original hash st',
    saveImage this env st file false
    = (Return (SaveOk new_id stored_name original hash), st') ->
    0 <= t ->
    exists m,
      findDuplicate st' (uploadDir this ++ stored_name) t = Return (Some m) /\
      hamming_distance m = 0.

(** Lower-case hexadecimal digits, and strings made of them. *)
Definition lower_hex_char (c : ascii) : bool :=
  existsb (Ascii.eqb c) (list_ascii_of_string "0123456789abcdef").

Fixpoint lower_hex (s : string) : bool :=
  match s with
  | EmptyString => true
  | String c r => lower_hex_char c && lower_hex r
  end.

(** Every stored hash has the shape [generateHash] gives: sixteen
    lower-case hexadecimal digits. *)
Definition hashes_ok (st : State) : Prop :=
  Forall (fun r => String.length (phash r) = 16%nat /\ lower_hex (phash r) = true)
         (images st).

(** The primary key: ids are distinct and below the AUTO_INCREMENT
    counter. *)
Definition keys_ok (st : State) : Prop :=
  NoDup (map id (images st)) /\
  Forall (fun r => id r < auto_increment st) (images st).

(** Table and upload directory agree: stored paths are distinct, every
    record has its file, and every file under the upload directory has
    its record. *)
Definition in_sync (this : Detector) (st : State) : Prop :=
  NoDup (map file_path (images st)) /\
  (forall r, r ∈ images st -> is_Some (fs st !! (uploadDir this ++ file_path r))) /\
  (forall p, is_Some (fs st !! (uploadDir this ++ p)) ->
             exists r, r ∈ images st /\ file_path r = p).

(** The name [saveImage] stores an upload under, its path, and the row it
    inserts for a file [f] with hash [hash]. *)
Definition new_file_name (env : Env) (file : Upload) : string :=
  uniqid env ++ "." ++ pathinfo_extension (name file).

Definition new_file_path (this : Detector) (env : Env) (file : Upload) : string :=
  uploadDir this ++ new_file_name env file.

Definition new_row (env : Env) (st : State) (file : Upload) (f : File) (hash : string) : Row :=
  {| id := auto_increment st;
     filename := name file;
     file_path := new_file_name env file;
     phash := hash;
     mime_type := finfo_mime f;
     file_size := file_bytes f;
     upload_date := now env |}.

(* ================================================================== *)
(** * Sample data *)

(** An image every cell of whose 8x8 copy has the packed colour [rgb]. *)
Definition solid (rgb : Z) : GdImage := {| gd_resampled := fun _ _ => rgb |}.

(** An image whose copy is [dark] in its upper four rows and [light] below. *)
Definition two_tone (dark light : Z) : GdImage :=
  {| gd_resampled := fun _ y => if y <? 4 then dark else light |}.

Definition png (img : GdImage) : File :=
  {| finfo_mime := "image/png";
     getimagesize_mime := Some "image/png";
     gd_decode := Some img;
     file_bytes := 2048 |}.

(** Sample rows and a table in which the nearer record comes second. *)
Definition stored (i : Z) (path hash : string) : Row :=
  {| id := i; filename := "photo.png"; file_path := path; phash := hash;
     mime_type := "image/png"; file_size := 2048;
     upload_date := "2025-01-01 00:00:00" |}.

Definition nearer_second : State :=
  {| fs := {[ "/tmp/phpA" := png (solid 0) ]};
     images := [stored 1 "img_1.png" "0000000000000007";
                stored 2 "img_2.png" "0000000000000000"];
     auto_increment := 3 |}.

(** A sample upload of a black image, and surroundings in which the move
    succeeds; [failing_insert] is the same with a failing INSERT. *)
Definition detector : Detector := {| uploadDir := "/var/www/uploads/" |}.

Definition upload : Upload :=
  {| name := "holiday.png"; tmp_name := "/tmp/phpA"; error := UPLOAD_ERR_OK |}.

Definition calm : Env :=
  {| uniqid := "img_65a1b2c3d4e5f6.12345678"; move_ok := true;
     insert_error := None; now := "2025-02-02 10:00:00" |}.

Definition failing_insert : Env :=
  {| uniqid := "img_65a1b2c3d4e5f6.12345678"; move_ok := true;
     insert_error := Some "SQLSTATE[HY000]: General error";
     now := "2025-02-02 10:00:00" |}.

(** A table whose only record lies at distance 7 from the black image. *)
Definition one_far_row : State :=
  {| fs := {[ "/tmp/phpA" := png (solid 0) ]};
     images := [stored 1 "img_1.png" "000000000000007f"];
     auto_increment := 2 |}.

(** A table with two records and their files. *)
Definition two_images : State :=
  {| fs := {[ "/var/www/uploads/img_1.png" := png (solid 0);
              "/var/www/uploads/img_2.png" := png (two_tone 0 16777215) ]};
     images := [stored 1 "img_1.png" "0000000000000000";
                stored 2 "img_2.png" "00000000ffffffff"];
     auto_increment := 3 |}.

(** A file that claims to be a PNG but that neither [getimagesize] nor GD
    can read. *)
Definition garbled : File :=
  {| finfo_mime := "image/png"; getimagesize_mime := None;
     gd_decode := None; file_bytes := 12 |}.

Definition one_garbled_upload : State :=
  {| fs := {[ "/tmp/phpA" := garbled ]}; images := []; auto_increment := 1 |}.

(** A table with one record, its file, and an upload waiting in /tmp. *)
Definition one_stored : State :=
  {| fs := {[ "/tmp/phpA" := png (solid 0);
              "/var/www/uploads/img_1.png" := png (two_tone 0 16777215) ]};
     images := [stored 1 "img_1.png" "00000000ffffffff"];
     auto_increment := 2 |}.

(** A plain GET request for one page of the gallery, and the rows a
    response shows. *)
Definition page_request (p : Z) : Request :=
  {| get_logout := false; request_method := "GET"; post_password := None;
     post_delete_id := None; get_page := Some p |}.

Definition shown_rows (answer : Page) : list ImageInfo :=
  match answer with
  | Gallery _ shown _ _ => shown
  | _ => []
  end.

(** A logged-in session, and a POST that asks for a deletion. *)
Definition logged_in : gmap string bool := {[ "authenticated" := true ]}.

Definition delete_request (i : Z) : Request :=
  {| get_logout := false; request_method := "POST"; post_password := None;
     post_delete_id := Some i; get_page := None |}.

Definition login_request (password : string) : Request :=
  {| get_logout := false; request_method := "POST"; post_password := Some password;
     post_delete_id := None; get_page := None |}.

(** The similarity reported for distance [d] lies between 0 and 100, and
    is above 99 only for [d = 0]. *)
Definition similarity_in_range (d : Z) : bool :=
  let s := similarity (make_match (stored 0 EmptyString EmptyString) d) in
  negb (Num.gt s (PInt 100)) && negb (Num.gt (PInt 0) s) &&
  (if d =? 0 then Num.gt s (PInt 99) else Num.gt (PInt 100) s).

(* ================================================================== *)
(** * Properties *)

(** ** Strings *)

Lemma string_app_cons (c : ascii) (s t : string) : String c s ++ t = String c (s ++ t).
Proof. reflexivity. Qed.

Lemma string_app_empty_l (s : string) : "" ++ s = s.
Proof. reflexivity. Qed.

Lemma string_app_empty_r (s : string) : s ++ "" = s.
Proof.
  induction s as [|c s IH]; [reflexivity|].
  now rewrite string_app_cons, IH.
Qed.

Lemma string_app_assoc (s1 s2 s3 : string) : (s1 ++ s2) ++ s3 = s1 ++ (s2 ++ s3).
Proof.
  induction s1 as [|c s1 IH]; [reflexivity|].
  now rewrite !string_app_cons, IH.
Qed.

(** ** The bit-counting loop *)

Lemma Zland_le_r (x y : Z) : 0 <= x -> 0 <= y -> Z.land x y <= y.
Proof.
  intros Hx Hy.
  rewrite <- (Z2N.id x Hx), <- (Z2N.id y Hy) at 1.
  rewrite <- N2Z.inj_land.
  transitivity (Z.of_N (Z.to_N y)); [|rewrite Z2N.id; lia].
  apply N2Z.inj_le, N.land_le_r.
Qed.

(** The loop leaves through its condition: with [$xor] iterations allowed
    it always stops at [$xor == 0]. *)
Lemma while_xor_exits_within (fuel : nat) :
  forall x d, 0 <= x <= Z.of_nat fuel -> fst (while_xor fuel (x, d)) = 0.
Proof.
  induction fuel as [|fuel IH]; intros x d Hx; simpl.
  - lia.
  - destruct (Z.eqb_spec x 0) as [->|Hne]; [reflexivity|].
    unfold clear_lowest; simpl. apply IH. split.
    + apply Z.land_nonneg. left. lia.
    + pose proof (Zland_le_r x (x - 1)). lia.
Qed.

Lemma while_xor_exits (x d : Z) :
  0 <= x -> fst (while_xor (Z.to_nat x) (x, d)) = 0.
Proof. intros Hx. apply while_xor_exits_within. lia. Qed.

(** ** Fingerprints as bit sequences *)

Lemma fingerprint_bits_length (h : string) :
  length (fingerprint_bits h) = (4 * String.length h)%nat.
Proof. induction h as [|c h IH]; simpl; [reflexivity | rewrite IH; lia]. Qed.

Lemma differing_bounds (a b : list bool) :
  0 <= differing a b <= Z.of_nat (length a).
Proof.
  revert b. induction a as [|x a IH]; intros [|y b]; simpl; try lia.
  specialize (IH b). destruct (xorb x y); lia.
Qed.

Lemma differing_refl (a : list bool) : differing a a = 0.
Proof. induction a as [|x a IH]; simpl; [reflexivity|]. rewrite xorb_nilpotent. lia. Qed.

Lemma differing_sym (a b : list bool) : differing a b = differing b a.
Proof.
  revert b. induction a as [|x a IH]; intros [|y b]; simpl; try reflexivity.
  rewrite (xorb_comm x y), (IH b). reflexivity.
Qed.

Lemma hexdec_char_range (c : ascii) : 0 <= Php.hexdec (String c "") < 16.
Proof.
  unfold Php.hexdec; simpl. unfold Php.hex_value.
  set (n := Z.of_N (N_of_ascii c)).
  repeat match goal with
         | |- context [if ?b then _ else _] => destruct b eqn:?
         end; simpl; lia.
Qed.

Lemma nibble_cases (v : Z) :
  0 <= v < 16 ->
  v = 0 \/ v = 1 \/ v = 2 \/ v = 3 \/ v = 4 \/ v = 5 \/ v = 6 \/ v = 7 \/
  v = 8 \/ v = 9 \/ v = 10 \/ v = 11 \/ v = 12 \/ v = 13 \/ v = 14 \/ v = 15.
Proof. lia. Qed.

Ltac nibble_split H :=
  apply nibble_cases in H;
  repeat (destruct H as [H|H]; [subst|]); try subst.

(** One round of the outer loop adds the number of differing bits of the
    two digits. *)
Lemma countSetBits_xor (v1 v2 d : Z) :
  0 <= v1 < 16 -> 0 <= v2 < 16 ->
  countSetBits (Z.lxor v1 v2) d = d + differing (bits4 v1) (bits4 v2).
Proof.
  intros H1 H2. nibble_split H1; nibble_split H2; vm_compute differing;
    unfold countSetBits; simpl; lia.
Qed.

(** ** hammingDistance *)

Lemma hamming_loop_shift (n : nat) :
  forall i c1 c2 h1 h2 d,
    hamming_loop n (S i) (String c1 h1) (String c2 h2) d = hamming_loop n i h1 h2 d.
Proof.
  induction n as [|n IH]; intros i c1 c2 h1 h2 d; [reflexivity|].
  simpl. unfold Php.str_at at 1 2 3 4. simpl String.get. apply IH.
Qed.

Lemma hamming_loop_differing (h1 : string) :
  forall h2 d,
    String.length h1 = String.length h2 ->
    hamming_loop (String.length h1) 0 h1 h2 d
    = d + differing (fingerprint_bits h1) (fingerprint_bits h2).
Proof.
  induction h1 as [|c1 h1 IH]; intros [|c2 h2] d Hlen; simpl in Hlen; try discriminate.
  - simpl. lia.
  - injection Hlen as Hlen.
    change (hamming_loop (String.length (String c1 h1)) 0 (String c1 h1) (String c2 h2) d)
      with (hamming_loop (String.length h1) 1 (String c1 h1) (String c2 h2)
              (countSetBits (Z.lxor (Php.hexdec (String c1 "")) (Php.hexdec (String c2 ""))) d)).
    rewrite hamming_loop_shift, (IH h2 _ Hlen).
    rewrite countSetBits_xor by apply hexdec_char_range.
    change (fingerprint_bits (String c1 h1)) with (nibble_bits c1 ++ fingerprint_bits h1)%list.
    change (fingerprint_bits (String c2 h2)) with (nibble_bits c2 ++ fingerprint_bits h2)%list.
    unfold nibble_bits, bits4. simpl differing. lia.
Qed.

Lemma hammingDistance_throws (h1 h2 : string) :
  String.length h1 <> String.length h2 ->
  hammingDistance h1 h2 = Throw "Hashes must be the same length".
Proof.
  intros Hne. unfold hammingDistance.
  destruct (Nat.eqb_spec (String.length h1) (String.length h2)); [contradiction | reflexivity].
Qed.

Lemma hammingDistance_returns (h1 h2 : string) :
  String.length h1 = String.length h2 ->
  hammingDistance h1 h2 = Return (differing (fingerprint_bits h1) (fingerprint_bits h2)).
Proof.
  intros Heq. unfold hammingDistance.
  destruct (Nat.eqb_spec (String.length h1) (String.length h2)); [|contradiction].
  simpl. rewrite hamming_loop_differing by assumption. reflexivity.
Qed.

Lemma hammingDistance_self (h : string) : hammingDistance h h = Return 0.
Proof. rewrite hammingDistance_returns by reflexivity. now rewrite differing_refl. Qed.

Lemma hammingDistance_length (h1 h2 : string) (d : Z) :
  hammingDistance h1 h2 = Return d -> String.length h1 = String.length h2.
Proof.
  unfold hammingDistance.
  destruct (Nat.eqb_spec (String.length h1) (String.length h2)); [tauto | discriminate].
Qed.

(** C5. For fingerprints [a] and [b] of equal length [L] (the hash strings
    of the class, each hexadecimal digit carrying four bits of the
    fingerprint): [hammingDistance(a, b)] returns a distance [d] with
    [0 <= d <= L], [hammingDistance(a, a)] is 0, and
    [hammingDistance(b, a)] is the same [d]. *)
Theorem hammingDistance_bounds_self_symmetric (a b : string) (L : nat) :
  length (fingerprint_bits a) = L ->
  length (fingerprint_bits b) = L ->
  exists d,
    hammingDistance a b = Return d /\
    0 <= d <= Z.of_nat L /\
    hammingDistance a a = Return 0 /\
    hammingDistance b a = Return d.
Proof.
  intros Ha Hb.
  assert (Hlen : String.length a = String.length b).
  { rewrite fingerprint_bits_length in Ha, Hb. lia. }
  exists (differing (fingerprint_bits a) (fingerprint_bits b)).
  split; [now apply hammingDistance_returns|].
  split; [rewrite <- Ha; apply differing_bounds|].
  split; [apply hammingDistance_self|].
  rewrite (differing_sym (fingerprint_bits a)).
  now apply hammingDistance_returns.
Qed.

Lemma hammingDistance_bounds_self_symmetric_witness :
  exists d,
    hammingDistance "f0a3" "0fa1" = Return d /\
    0 <= d <= Z.of_nat 16 /\
    hammingDistance "f0a3" "f0a3" = Return 0 /\
    hammingDistance "0fa1" "f0a3" = Return d.
Proof.
  apply (hammingDistance_bounds_self_symmetric "f0a3" "0fa1" 16); reflexivity.
Defined.

(** C6. [hammingDistance(a, b)] fails with the length-mismatch exception
    if and only if [a] and [b] have different lengths; when the lengths
    are equal it returns the number of bit positions in which the two
    fingerprints differ. *)
Theorem hammingDistance_mismatch_iff_lengths_differ (a b : string) :
  (hammingDistance a b = Throw "Hashes must be the same length"
     <-> String.length a <> String.length b) /\
  ((exists msg, hammingDistance a b = Throw msg)
     <-> String.length a <> String.length b) /\
  (String.length a = String.length b ->
     hammingDistance a b = Return (differing (fingerprint_bits a) (fingerprint_bits b))).
Proof.
  split; [|split].
  - split; [|apply hammingDistance_throws].
    intros Hthrow Heq. rewrite (hammingDistance_returns _ _ Heq) in Hthrow. discriminate.
  - split.
    + intros [msg Hthrow] Heq.
      rewrite (hammingDistance_returns _ _ Heq) in Hthrow. discriminate.
    + intros Hne. eexists. now apply hammingDistance_throws.
  - apply hammingDistance_returns.
Qed.

Lemma hammingDistance_mismatch_iff_lengths_differ_witness :
  hammingDistance "ff00" "0f01" = Return 5 /\
  hammingDistance "ff00" "0f0" = Throw "Hashes must be the same length".
Proof.
  destruct (hammingDistance_mismatch_iff_lengths_differ "ff00" "0f01") as (_ & _ & Hret).
  destruct (hammingDistance_mismatch_iff_lengths_differ "ff00" "0f0") as (Hthrow & _).
  split.
  - rewrite Hret; reflexivity.
  - apply Hthrow. simpl. discriminate.
Defined.

(** ** The hexadecimal encoding made by generateHash *)

Lemma fold_append_bit_string (bits : list bool) :
  forall acc,
    fold_left (fun hash (b : bool) => hash ++ (if b then "1" else "0")) bits acc
    = acc ++ bit_string bits.
Proof.
  induction bits as [|b bits IH]; intros acc; simpl.
  - now rewrite string_app_empty_r.
  - rewrite IH, string_app_assoc. now destruct b.
Qed.

Lemma threshold_bits_bit_string (pixels : list number) (average : number) :
  threshold_bits pixels average
  = bit_string (map (fun pixel => Num.gt pixel average) pixels).
Proof.
  unfold threshold_bits.
  assert (H : forall acc,
    fold_left (fun hash pixel => hash ++ (if Num.gt pixel average then "1" else "0"))
      pixels acc
    = acc ++ bit_string (map (fun pixel => Num.gt pixel average) pixels)).
  { induction pixels as [|p pixels IH]; intros acc; simpl.
    - now rewrite string_app_empty_r.
    - rewrite IH, string_app_assoc. now destruct (Num.gt p average). }
  now rewrite H.
Qed.

Lemma hex_loop_done (fuel i : nat) (hash acc : string) :
  (String.length hash <= i)%nat -> hex_loop fuel i hash acc = acc.
Proof.
  intros Hle. destruct fuel; simpl; [reflexivity|].
  destruct (Nat.ltb_spec i (String.length hash)); [lia | reflexivity].
Qed.

Lemma substr_none (s : string) : Php.substr s 0 0 = "".
Proof. now destruct s. Qed.

Lemma substr_skip4 (i n : nat) (a b c d : ascii) (r : string) :
  Php.substr (String a (String b (String c (String d r)))) (i + 4) n = Php.substr r i n.
Proof. rewrite Nat.add_comm. reflexivity. Qed.

Lemma ltb_skip4 (i : nat) (a b c d : ascii) (r : string) :
  (i + 4 <? String.length (String a (String b (String c (String d r)))))%nat
  = (i <? String.length r)%nat.
Proof.
  cbn [String.length].
  destruct (Nat.ltb_spec i (String.length r)),
           (Nat.ltb_spec (i + 4) (S (S (S (S (String.length r))))));
    (reflexivity || lia).
Qed.

Lemma hex_loop_shift (fuel : nat) :
  forall i a b c d r acc,
    hex_loop fuel (i + 4) (String a (String b (String c (String d r)))) acc
    = hex_loop fuel i r acc.
Proof.
  induction fuel as [|fuel IH]; intros i a b c d r acc; [reflexivity|].
  cbn [hex_loop]. rewrite ltb_skip4, substr_skip4.
  destruct (i <? String.length r)%nat; [apply IH | reflexivity].
Qed.

(** With [4 * fuel >= strlen($hash)] the loop has consumed every chunk:
    it ends because [$i] reached the end of the string. *)
Lemma hex_loop_chunks (fuel : nat) :
  forall s acc,
    (String.length s <= 4 * fuel)%nat ->
    hex_loop fuel 0 s acc = acc ++ hex_chunks s.
Proof.
  induction fuel as [|fuel IH]; intros s acc Hlen.
  - destruct s; simpl in Hlen; [|lia]. simpl. now rewrite string_app_empty_r.
  - destruct s as [|a [|b [|c [|d r]]]].
    + simpl. now rewrite string_app_empty_r.
    + cbn [hex_loop String.length Nat.ltb Nat.leb]. rewrite hex_loop_done by (simpl; lia).
      reflexivity.
    + cbn [hex_loop String.length Nat.ltb Nat.leb]. rewrite hex_loop_done by (simpl; lia).
      reflexivity.
    + cbn [hex_loop String.length Nat.ltb Nat.leb]. rewrite hex_loop_done by (simpl; lia).
      reflexivity.
    + cbn [hex_loop String.length Nat.ltb Nat.leb].
      rewrite (hex_loop_shift fuel 0), IH by (simpl in Hlen; lia).
      cbn [Php.substr hex_chunks]. rewrite substr_none, string_app_assoc. reflexivity.
Qed.

Lemma bin_to_hex_chunks (s : string) : bin_to_hex s = hex_chunks s.
Proof. unfold bin_to_hex. rewrite hex_loop_chunks by lia. reflexivity. Qed.

Lemma hex_chunks_bits (a b c d : bool) (r : list bool) :
  hex_chunks (bit_string (a :: b :: c :: d :: r))
  = String (nibble_char a b c d) (hex_chunks (bit_string r)).
Proof.
  cbn [bit_string hex_chunks].
  destruct a, b, c, d; reflexivity.
Qed.

Lemma nibble_bits_char (a b c d : bool) :
  nibble_bits (nibble_char a b c d) = [a; b; c; d].
Proof. destruct a, b, c, d; reflexivity. Qed.

(** Fingerprints whose length is a multiple of four survive the encoding:
    the digits have one character per four bits and decode to the bits. *)
Lemma hex_encoding_round_trip (k : nat) :
  forall bits,
    length bits = (4 * k)%nat ->
    String.length (hex_encoding bits) = k /\
    fingerprint_bits (hex_encoding bits) = bits.
Proof.
  unfold hex_encoding.
  induction k as [|k IH]; intros bits Hlen.
  - destruct bits; [|discriminate]. split; reflexivity.
  - destruct bits as [|a [|b [|c [|d r]]]]; simpl in Hlen; try lia.
    destruct (IH r) as [IHlen IHbits]; [lia|].
    rewrite fold_append_bit_string, string_app_empty_l, bin_to_hex_chunks in *.
    rewrite hex_chunks_bits. split.
    + simpl. now rewrite IHlen.
    + cbn [fingerprint_bits]. rewrite nibble_bits_char, IHbits. reflexivity.
Qed.

(** C9. For any two 64-bit fingerprints, their encodings have sixteen
    hexadecimal digits each, and [hammingDistance] on the encodings (digit
    by digit XOR and bit counting) returns the number of positions in which
    the two bit sequences differ. *)
Theorem hammingDistance_hex_refines_bits (a b : list bool) :
  length a = 64%nat ->
  length b = 64%nat ->
  String.length (hex_encoding a) = 16%nat /\
  String.length (hex_encoding b) = 16%nat /\
  hammingDistance (hex_encoding a) (hex_encoding b) = Return (differing a b).
Proof.
  intros Ha Hb.
  destruct (hex_encoding_round_trip 16 a Ha) as [La Ba].
  destruct (hex_encoding_round_trip 16 b Hb) as [Lb Bb].
  split; [assumption|]. split; [assumption|].
  rewrite hammingDistance_returns by congruence.
  now rewrite Ba, Bb.
Qed.

Lemma hammingDistance_hex_refines_bits_witness :
  String.length (hex_encoding (repeat true 64)) = 16%nat /\
  String.length (hex_encoding (repeat false 60 ++ repeat true 4)) = 16%nat /\
  hammingDistance (hex_encoding (repeat true 64))
                  (hex_encoding (repeat false 60 ++ repeat true 4))
  = Return (differing (repeat true 64) (repeat false 60 ++ repeat true 4)).
Proof.
  apply (hammingDistance_hex_refines_bits (repeat true 64) (repeat false 60 ++ repeat true 4));
    reflexivity.
Defined.

(** ** generateHash *)

Lemma grayscale_intensity (rgb : Z) : grayscale rgb = intensity rgb.
Proof.
  unfold grayscale, intensity, channel.
  change 255 with (Z.ones 8).
  rewrite !Z.land_ones, !Z.shiftr_div_pow2 by lia.
  change (256 ^ 2) with (2 ^ 16). change (256 ^ 1) with (2 ^ 8).
  change (256 ^ 0) with 1. rewrite Z.div_1_r. reflexivity.
Qed.

Lemma read_pixels_cells (img : GdImage) :
  read_pixels (gd_resampled img)
  = map (fun c => cell_intensity img c.1 c.2) grid_cells.
Proof.
  unfold read_pixels, grid_cells, cell_intensity, hashSize.
  cbv [seq flat_map map app mbind list_bind mret list_ret fst snd].
  rewrite !grayscale_intensity. reflexivity.
Qed.

Lemma read_pixels_lookup (img : GdImage) (x y : nat) :
  (x < 8)%nat -> (y < 8)%nat ->
  read_pixels (gd_resampled img) !! (8 * y + x)%nat = Some (cell_intensity img x y).
Proof.
  intros Hx Hy. rewrite read_pixels_cells.
  do 8 (destruct y as [|y]; [do 8 (destruct x as [|x]; [reflexivity|]); lia|]).
  lia.
Qed.

Lemma read_pixels_length (resized : Z -> Z -> Z) : length (read_pixels resized) = 64%nat.
Proof. reflexivity. Qed.

Lemma generateHash_encoding (files : gmap string File) (path : string) (img : GdImage) :
  loadImage files path = Some img ->
  generateHash files path
  = Return (hex_encoding
              (map (fun pixel => Num.gt pixel (computed_mean img))
                   (read_pixels (gd_resampled img)))).
Proof.
  intros Hload. unfold generateHash. rewrite Hload. cbn zeta.
  rewrite threshold_bits_bit_string.
  unfold hex_encoding. rewrite fold_append_bit_string, string_app_empty_l.
  unfold Num.count. rewrite read_pixels_length.
  unfold computed_mean. rewrite <- read_pixels_cells. reflexivity.
Qed.

(** The bits of a generated hash are the comparisons the code makes:
    the grey value of the cell against the computed average. *)
Lemma generateHash_bits_computed
    (files : gmap string File) (path : string) (img : GdImage) :
  loadImage files path = Some img ->
  exists h,
    generateHash files path = Return h /\
    String.length h = 16%nat /\
    length (fingerprint_bits h) = 64%nat /\
    forall x y : nat, (x < 8)%nat -> (y < 8)%nat ->
      fingerprint_bits h !! (8 * y + x)%nat
      = Some (Num.gt (cell_intensity img x y) (computed_mean img)).
Proof.
  intros Hload. eexists. split; [apply (generateHash_encoding _ _ _ Hload)|].
  destruct (hex_encoding_round_trip 16
              (map (fun pixel => Num.gt pixel (computed_mean img))
                   (read_pixels (gd_resampled img)))) as [Hlen Hbits].
  { now rewrite length_map, read_pixels_length. }
  split; [exact Hlen|]. rewrite Hbits.
  split; [now rewrite length_map, read_pixels_length|].
  intros x y Hx Hy.
  rewrite list_lookup_fmap, read_pixels_lookup by assumption. reflexivity.
Qed.

(** The mean is a floating-point mean.  For a uniformly black image it is
    exact and no cell lies above it; for the uniform colour (0, 0, 1) every
    intensity is the double nearest to 1/3, their running sum is rounded on
    the way, and the quotient falls one unit in the last place below the
    intensity, so every cell lies above the mean. *)
Remark generateHash_solid_images :
  generateHash {[ "black.png" := png (solid 0) ]} "black.png" = Return "0000000000000000" /\
  generateHash {[ "blue1.png" := png (solid 1) ]} "blue1.png" = Return "ffffffffffffffff" /\
  generateHash {[ "halves.png" := png (two_tone 0 16777215) ]} "halves.png"
    = Return "00000000ffffffff".
Proof. repeat split; vm_compute; reflexivity. Qed.

(** C8.  The code departs from the claim.  [generateHash] returns 64
    bits, but it compares each grey value with a floating-point average.
    For the uniform colour (0, 0, 1) all 64 cells have the same channel
    sum 1, hence the same intensity: no cell lies strictly above the mean
    and every bit should be 0.  The code returns sixteen digits [f], that
    is 64 one bits. *)
Theorem generateHash_equal_cells_all_ones :
  generateHash {[ "blue1.png" := png (solid 1) ]} "blue1.png" = Return "ffffffffffffffff" /\
  fingerprint_bits "ffffffffffffffff" = repeat true 64 /\
  forall x y : nat,
    channel_sum (solid 1) x y = 1 /\ exact_above_mean (solid 1) x y = false.
Proof.
  split; [vm_compute; reflexivity|]. split; [vm_compute; reflexivity|].
  intros x y. split; reflexivity.
Qed.

(** ** findDuplicate *)

Lemma scan_rows_skip (hash : string) (threshold : Z) (pre rest : list Row) :
  Forall (beyond hash threshold) pre ->
  scan_rows hash threshold (pre ++ rest) = scan_rows hash threshold rest.
Proof.
  induction 1 as [|row pre (d & Hd & Hlt) _ IH]; [reflexivity|].
  simpl. rewrite Hd. destruct (Z.leb_spec d threshold); [lia | exact IH].
Qed.

Lemma scan_rows_hit (hash : string) (threshold : Z) (row : Row) (post : list Row) (d : Z) :
  hammingDistance hash (phash row) = Return d ->
  d <= threshold ->
  scan_rows hash threshold (row :: post) = Return (Some (make_match row d)).
Proof.
  intros Hd Hle. simpl. rewrite Hd.
  destruct (Z.leb_spec d threshold); [reflexivity | lia].
Qed.

Lemma scan_rows_none (hash : string) (threshold : Z) (rows : list Row) :
  scan_rows hash threshold rows = Return None <-> Forall (beyond hash threshold) rows.
Proof.
  split.
  - induction rows as [|row rows IH]; simpl; [constructor|].
    destruct (hammingDistance hash (phash row)) as [d|msg] eqn:Hd; [|discriminate].
    destruct (Z.leb_spec d threshold); [discriminate|].
    intros Hrest. constructor; [exists d; split; assumption | auto].
  - intros Hall. rewrite <- (app_nil_r rows). now rewrite scan_rows_skip.
Qed.

(** A match is always the first row, in scan order, that is within the
    threshold, reported with its own distance. *)
Lemma scan_rows_some (hash : string) (threshold : Z) (rows : list Row) (m : Match) :
  scan_rows hash threshold rows = Return (Some m) ->
  exists pre row post d,
    rows = (pre ++ row :: post)%list /\
    Forall (beyond hash threshold) pre /\
    hammingDistance hash (phash row) = Return d /\
    d <= threshold /\
    m = make_match row d.
Proof.
  induction rows as [|row rows IH]; simpl; [discriminate|].
  destruct (hammingDistance hash (phash row)) as [d|msg] eqn:Hd; [|discriminate].
  destruct (Z.leb_spec d threshold) as [Hle|Hlt].
  - intros [= <-]. exists [], row, rows, d. repeat split; auto.
  - intros Hrest. destruct (IH Hrest) as (pre & row' & post & d' & -> & Hpre & Hd' & Hle & ->).
    exists (row :: pre), row', post, d'. repeat split; auto.
    constructor; [exists d; split; assumption | assumption].
Qed.

Lemma scan_rows_monotone (hash : string) (t1 t2 : Z) (rows : list Row) (m : Match) :
  t1 <= t2 ->
  scan_rows hash t1 rows = Return (Some m) ->
  exists m', scan_rows hash t2 rows = Return (Some m') /\
             hamming_distance m' <= t2.
Proof.
  intros Hle. induction rows as [|row rows IH]; simpl; [discriminate|].
  destruct (hammingDistance hash (phash row)) as [d|msg]; [|discriminate].
  destruct (Z.leb_spec d t1), (Z.leb_spec d t2); try lia.
  - intros _. eexists. split; [reflexivity | assumption].
  - intros _. eexists. split; [reflexivity | assumption].
  - exact IH.
Qed.

(** C7. Threshold monotonicity: for a fixed state and candidate image, if
    [findDuplicate] returns a match for threshold [t1], it also returns a
    match (possibly another record) for every threshold [t2 > t1]. *)
Theorem findDuplicate_threshold_monotone
    (st : State) (path : string) (t1 t2 : Z) (m : Match) :
  t1 < t2 ->
  findDuplicate st path t1 = Return (Some m) ->
  exists m', findDuplicate st path t2 = Return (Some m').
Proof.
  unfold findDuplicate. intros Hlt.
  destruct (generateHash (fs st) path) as [hash|msg]; [|discriminate].
  intros Hscan.
  destruct (scan_rows_monotone hash t1 t2 (images st) m) as (m' & Hm' & _);
    [lia | assumption | eauto].
Qed.

Lemma findDuplicate_threshold_monotone_witness :
  exists m', findDuplicate nearer_second "/tmp/phpA" 9 = Return (Some m').
Proof.
  apply (findDuplicate_threshold_monotone nearer_second "/tmp/phpA" 5 9
           (make_match (stored 1 "img_1.png" "0000000000000007") 3)).
  - lia.
  - vm_compute. reflexivity.
Defined.

(** C1, counterexample.  The table holds a record at distance 3 from the
    candidate followed by one at distance 0; with threshold 5 the scan
    returns the first of them, distance 3, which is not the minimum. *)
Lemma findDuplicate_not_best_match :
  ~ returns_best_match nearer_second "/tmp/phpA" 5.
Proof.
  intros Hclaim.
  destruct (Hclaim "0000000000000000") as [_ Hsome]; [vm_compute; reflexivity|].
  destruct Hsome as (m & Hm & Hmin).
  { exists (stored 2 "img_2.png" "0000000000000000"). split.
    - right. left.
    - exists 0. split; [vm_compute; reflexivity | lia]. }
  assert (Hfound : findDuplicate nearer_second "/tmp/phpA" 5
                   = Return (Some (make_match (stored 1 "img_1.png" "0000000000000007") 3)))
    by (vm_compute; reflexivity).
  rewrite Hfound in Hm. injection Hm as <-.
  specialize (Hmin (stored 2 "img_2.png" "0000000000000000") 0).
  simpl in Hmin. assert (3 <= 0); [|lia].
  apply Hmin; [right; left | vm_compute; reflexivity].
Qed.

Lemma not_within_beyond (hash : string) (t : Z) (row : Row) :
  String.length (phash row) = String.length hash ->
  ~ within hash t row -> beyond hash t row.
Proof.
  intros Hlen Hnot.
  exists (differing (fingerprint_bits hash) (fingerprint_bits (phash row))).
  split; [now apply hammingDistance_returns|].
  destruct (Z.lt_ge_cases t (differing (fingerprint_bits hash) (fingerprint_bits (phash row))))
    as [Hlt|Hge]; [assumption|].
  exfalso. apply Hnot. eexists. split; [now apply hammingDistance_returns | assumption].
Qed.

Lemma within_dec (hash : string) (t : Z) (row : Row) :
  {within hash t row} + {~ within hash t row}.
Proof.
  unfold within. destruct (hammingDistance hash (phash row)) as [d|msg].
  - destruct (Z_le_gt_dec d t) as [Hle|Hgt].
    + left. eauto.
    + right. intros (d' & [= <-] & Hle). lia.
  - right. intros (d' & Hd & _). discriminate.
Qed.

(** Splitting a table at its first row within the threshold. *)
Lemma first_within (hash : string) (t : Z) (rows : list Row) :
  (exists r, r ∈ rows /\ within hash t r) ->
  exists pre row post,
    rows = (pre ++ row :: post)%list /\
    (forall r, r ∈ pre -> ~ within hash t r) /\
    within hash t row.
Proof.
  induction rows as [|row rows IH]; intros (r & Hin & Hr).
  - inversion Hin.
  - destruct (within_dec hash t row) as [Hrow|Hrow].
    + exists [], row, rows. split; [reflexivity|]. split; [|assumption].
      intros r' Hin'. inversion Hin'.
    + destruct IH as (pre & row' & post & -> & Hpre & Hrow').
      { exists r. split; [|assumption].
        apply elem_of_cons in Hin as [->|Hin]; [contradiction | assumption]. }
      exists (row :: pre), row', post. split; [reflexivity|]. split; [|assumption].
      intros r' Hin'. apply elem_of_cons in Hin' as [->|Hin']; auto.
Qed.

(** C1, as amended.  When every stored fingerprint has the length of the
    candidate fingerprint [f]: if no stored fingerprint is within the
    threshold (in particular if the table is empty) [findDuplicate] returns
    no match; otherwise it returns the match of the first record, in scan
    order, whose distance from [f] is within the threshold, and reports
    that record's own distance. *)
Theorem findDuplicate_first_match (st : State) (path f : string) (t : Z) :
  generateHash (fs st) path = Return f ->
  Forall (fun r => String.length (phash r) = String.length f) (images st) ->
  ((forall r, r ∈ images st -> ~ within f t r) ->
     findDuplicate st path t = Return None) /\
  ((exists r, r ∈ images st /\ within f t r) ->
     exists pre row post d,
       images st = (pre ++ row :: post)%list /\
       (forall r, r ∈ pre -> ~ within f t r) /\
       hammingDistance f (phash row) = Return d /\
       d <= t /\
       findDuplicate st path t = Return (Some (make_match row d)) /\
       hamming_distance (make_match row d) = d).
Proof.
  intros Hhash Hlen. unfold findDuplicate. rewrite Hhash.
  rewrite Forall_forall in Hlen. split.
  - intros Hnone. apply scan_rows_none, Forall_forall.
    intros r Hr. apply not_within_beyond; auto.
  - intros Hsome.
    destruct (first_within f t (images st) Hsome)
      as (pre & row & post & Heq & Hpre & (d & Hd & Hle)).
    exists pre, row, post, d. repeat split; try assumption.
    rewrite Heq, scan_rows_skip.
    + now apply scan_rows_hit.
    + apply Forall_forall. intros r Hr. apply not_within_beyond; [|auto].
      apply Hlen. rewrite Heq. apply elem_of_app. now left.
Qed.

Lemma findDuplicate_first_match_witness :
  ((forall r, r ∈ images nearer_second -> ~ within "0000000000000000" 5 r) ->
     findDuplicate nearer_second "/tmp/phpA" 5 = Return None) /\
  ((exists r, r ∈ images nearer_second /\ within "0000000000000000" 5 r) ->
     exists pre row post d,
       images nearer_second = (pre ++ row :: post)%list /\
       (forall r, r ∈ pre -> ~ within "0000000000000000" 5 r) /\
       hammingDistance "0000000000000000" (phash row) = Return d /\
       d <= 5 /\
       findDuplicate nearer_second "/tmp/phpA" 5 = Return (Some (make_match row d)) /\
       hamming_distance (make_match row d) = d).
Proof.
  apply (findDuplicate_first_match nearer_second "/tmp/phpA" "0000000000000000" 5).
  - vm_compute. reflexivity.
  - repeat constructor.
Defined.

(** ** saveImage *)

(** C3. With [allowDuplicates] false, for an upload that passes the two
    validation guards in front of the duplicate check: if [findDuplicate]
    reports a match for the uploaded image, [saveImage] returns the
    duplicate-detected failure carrying that match, and the file store and
    the table are unchanged. *)
Theorem saveImage_duplicate_no_persistence
    (this : Detector) (env : Env) (st : State) (file : Upload) (m : Match) :
  error file = UPLOAD_ERR_OK ->
  in_array (finfo_file (fs st) (tmp_name file)) allowedTypes = true ->
  findDuplicate st (tmp_name file) default_threshold = Return (Some m) ->
  saveImage this env st file false
  = (Return (SaveDuplicate "Duplicate image detected" m), st).
Proof.
  intros Herr Hmime Hdup. unfold saveImage.
  rewrite Herr, Hmime. cbn [negb Z.eqb UPLOAD_ERR_OK].
  rewrite Hdup. reflexivity.
Qed.

Lemma saveImage_duplicate_no_persistence_witness :
  saveImage detector calm nearer_second upload false
  = (Return (SaveDuplicate "Duplicate image detected"
               (make_match (stored 1 "img_1.png" "0000000000000007") 3)),
     nearer_second).
Proof.
  apply (saveImage_duplicate_no_persistence detector calm nearer_second upload);
    vm_compute; reflexivity.
Defined.

(** Whatever the upload, a reported duplicate leaves the state as it was. *)
Lemma saveImage_duplicate_state_unchanged
    (this : Detector) (env : Env) (st : State) (file : Upload) (m : Match) :
  findDuplicate st (tmp_name file) default_threshold = Return (Some m) ->
  snd (saveImage this env st file false) = st.
Proof.
  intros Hdup. unfold saveImage.
  destruct (negb (error file =? UPLOAD_ERR_OK)); [reflexivity|].
  destruct (negb (in_array _ allowedTypes)); [reflexivity|].
  cbn [negb]. rewrite Hdup. reflexivity.
Qed.

(** C4. When the upload has passed validation and the duplicate check, the
    file has been moved into the upload directory and the INSERT then
    fails, [saveImage] returns a database error, the file it had written
    is gone from the store, and the table is as before. *)
Theorem saveImage_insert_failure_removes_file
    (this : Detector) (env : Env) (st : State) (file : Upload)
    (allowDuplicates : bool) (f : File) (msg : string) :
  error file = UPLOAD_ERR_OK ->
  fs st !! tmp_name file = Some f ->
  in_array (Some (finfo_mime f)) allowedTypes = true ->
  (allowDuplicates = true \/
   findDuplicate st (tmp_name file) default_threshold = Return None) ->
  move_ok env = true ->
  insert_error env = Some msg ->
  let filepath := uploadDir this ++ (uniqid env ++ "." ++ pathinfo_extension (name file)) in
  let outcome := saveImage this env st file allowDuplicates in
  (exists e, outcome.1 = Return (SaveFailed ("Database error: " ++ e))) /\
  fs outcome.2 !! filepath = None /\
  fs outcome.2 = delete filepath (delete (tmp_name file) (fs st)) /\
  images outcome.2 = images st /\
  auto_increment outcome.2 = auto_increment st.
Proof.
  intros Herr Htmp Hmime Hcheck Hmove Hins filepath outcome.
  subst outcome. unfold saveImage.
  rewrite Herr. unfold finfo_file. rewrite Htmp. cbn [fmap option_fmap option_map].
  rewrite Hmime. cbn [negb Z.eqb UPLOAD_ERR_OK].
  assert (Hpass : (if negb allowDuplicates
                   then findDuplicate st (tmp_name file) default_threshold
                   else Return None) = Return None).
  { destruct Hcheck as [-> | Hnone]; [reflexivity|].
    destruct allowDuplicates; [reflexivity | exact Hnone]. }
  rewrite Hpass. unfold move_uploaded_file. rewrite Htmp, Hmove, Hins.
  fold filepath. cbn [fs].
  destruct (generateHash (<[filepath:=f]> (delete (tmp_name file) (fs st))) filepath);
    cbn [fst snd unlink fs images auto_increment];
    (split; [eexists; reflexivity|]);
    rewrite delete_insert_eq;
    (split; [apply lookup_delete_eq | repeat split]).
Qed.

Lemma saveImage_insert_failure_removes_file_witness :
  let filepath := "/var/www/uploads/img_65a1b2c3d4e5f6.12345678.png" in
  let outcome := saveImage detector failing_insert one_far_row upload false in
  (exists e, outcome.1 = Return (SaveFailed ("Database error: " ++ e))) /\
  fs outcome.2 !! filepath = None /\
  fs outcome.2 = delete filepath (delete "/tmp/phpA" (fs one_far_row)) /\
  images outcome.2 = images one_far_row /\
  auto_increment outcome.2 = auto_increment one_far_row.
Proof.
  apply (saveImage_insert_failure_removes_file detector failing_insert one_far_row
           upload false (png (solid 0)) "SQLSTATE[HY000]: General error").
  - reflexivity.
  - vm_compute. reflexivity.
  - vm_compute. reflexivity.
  - right. vm_compute. reflexivity.
  - reflexivity.
  - reflexivity.
Defined.

(** ** Saving, then looking the saved image up *)

Lemma generateHash_same_file
    (files1 files2 : gmap string File) (p1 p2 h : string) :
  files1 !! p1 = files2 !! p2 ->
  generateHash files1 p1 = Return h ->
  generateHash files2 p2 = Return h.
Proof.
  unfold generateHash, loadImage. intros <-.
  destruct (files1 !! p1) as [f|]; [|discriminate].
  destruct (getimagesize_mime f) as [mime|]; [|discriminate].
  repeat match goal with
         | |- context [if ?b then _ else _] => destruct b
         end;
    try discriminate; destruct (gd_decode f); (discriminate || auto).
Qed.

Lemma beyond_weaken (hash : string) (t t' : Z) (row : Row) :
  t' <= t -> beyond hash t row -> beyond hash t' row.
Proof. intros Hle (d & Hd & Hlt). exists d. split; [assumption | lia]. Qed.

(** A scan over rows whose distances are all defined finds a match as soon
    as one of them is within the threshold. *)
Lemma scan_rows_finds (hash : string) (t : Z) (rows : list Row) :
  Forall (fun r => exists d, hammingDistance hash (phash r) = Return d) rows ->
  Exists (within hash t) rows ->
  exists m, scan_rows hash t rows = Return (Some m) /\ hamming_distance m <= t.
Proof.
  induction 1 as [|row rows (d & Hd) _ IH]; intros Hex; [inversion Hex|].
  simpl. rewrite Hd. destruct (Z.leb_spec d t) as [Hle|Hlt].
  - eexists. split; [reflexivity | exact Hle].
  - apply IH. inversion Hex as [? ? (d' & Hd' & Hle') | ]; subst; [|assumption].
    rewrite Hd in Hd'. injection Hd' as <-. lia.
Qed.

(** What a successful save leaves behind: the stored file hashes to the
    recorded hash, the table is the old one followed by a row with that
    hash, and (the save having passed the duplicate check) every older row
    is beyond the default threshold. *)
Lemma saveImage_success_inv
    (this : Detector) (env : Env) (st st' : State) (file : Upload)
    (new_id : Z) (stored_name original hash : string) :
  saveImage this env st file false
  = (Return (SaveOk new_id stored_name original hash), st') ->
  generateHash (fs st') (uploadDir this ++ stored_name) = Return hash /\
  Forall (beyond hash default_threshold) (images st) /\
  exists row, images st' = (images st ++ [row])%list /\ phash row = hash /\ id row = new_id.
Proof.
  unfold saveImage.
  destruct (negb (error file =? UPLOAD_ERR_OK)); [discriminate|].
  destruct (negb (in_array _ allowedTypes)); [discriminate|].
  cbn [negb].
  destruct (findDuplicate st (tmp_name file) default_threshold) as [[dup|]|msg] eqn:Hdup;
    try discriminate.
  unfold move_uploaded_file.
  destruct (fs st !! tmp_name file) as [f|] eqn:Htmp; [|discriminate].
  destruct (move_ok env); [|discriminate].
  cbn [fs images auto_increment].
  set (new_name := uniqid env ++ "." ++ pathinfo_extension (name file)).
  set (filepath := uploadDir this ++ new_name).
  destruct (generateHash (<[filepath:=f]> (delete (tmp_name file) (fs st))) filepath)
    as [h|msg] eqn:Hhash; [|discriminate].
  destruct (insert_error env); [discriminate|].
  intros [= <- <- <- <- <-]. cbn [insert_row fs images].
  split; [exact Hhash|]. split.
  - unfold findDuplicate in Hdup.
    destruct (generateHash (fs st) (tmp_name file)) as [h0|msg] eqn:Hh0; [|discriminate].
    assert (h0 = h) as ->.
    { apply (generateHash_same_file _ (<[filepath:=f]> (delete (tmp_name file) (fs st)))
               _ filepath) in Hh0.
      - congruence.
      - now rewrite lookup_insert_eq. }
    now apply scan_rows_none.
  - eexists. split; [reflexivity|]. split; reflexivity.
Qed.

(** C2, counterexample.  The table holds one record at distance 7 from a
    black image.  Saving the black image succeeds (7 is beyond the default
    threshold 5) and appends its row; a lookup of the saved file with
    threshold 10 then stops at the older record and reports distance 7. *)
Lemma self_match_fails_above_default :
  ~ self_match_at_zero detector calm one_far_row upload 10.
Proof.
  intros Hclaim.
  assert (Hsave : saveImage detector calm one_far_row upload false
                  = (Return (SaveOk 2 "img_65a1b2c3d4e5f6.12345678.png" "holiday.png"
                               "0000000000000000"),
                     (saveImage detector calm one_far_row upload false).2)).
  { rewrite (surjective_pairing (saveImage detector calm one_far_row upload false)) at 1.
    f_equal. }
  destruct (Hclaim _ _ _ _ _ Hsave) as (m & Hm & Hzero); [lia|].
  assert (Hfound :
    findDuplicate (saveImage detector calm one_far_row upload false).2
      (uploadDir detector ++ "img_65a1b2c3d4e5f6.12345678.png") 10
    = Return (Some (make_match (stored 1 "img_1.png" "000000000000007f") 7)))
    by (vm_compute; reflexivity).
  rewrite Hfound in Hm. injection Hm as <-. discriminate Hzero.
Qed.

(** C2, as amended.  After a successful save that went through the
    duplicate check, looking the stored image up with any threshold
    [t >= 0] returns a match whose distance is at most [t], and the
    distance is 0 whenever [t] is at most the default threshold the
    duplicate check used. *)
Theorem saveImage_then_findDuplicate
    (this : Detector) (env : Env) (st st' : State) (file : Upload)
    (new_id : Z) (stored_name original hash : string) (t : Z) :
  saveImage this env st file false
  = (Return (SaveOk new_id stored_name original hash), st') ->
  0 <= t ->
  exists m,
    findDuplicate st' (uploadDir this ++ stored_name) t = Return (Some m) /\
    0 <= hamming_distance m <= t /\
    (t <= default_threshold -> hamming_distance m = 0 /\ match_id m = new_id).
Proof.
  intros Hsave Ht.
  destruct (saveImage_success_inv _ _ _ _ _ _ _ _ _ Hsave)
    as (Hhash & Hold & row & Hrows & Hrow & Hid).
  unfold findDuplicate. rewrite Hhash, Hrows.
  assert (Hself : hammingDistance hash (phash row) = Return 0)
    by (rewrite Hrow; apply hammingDistance_self).
  destruct (scan_rows_finds hash t (images st ++ [row])) as (m & Hm & Hle).
  { apply Forall_app. split.
    - eapply Forall_impl; [exact Hold|]. intros r (d & Hd & _). eauto.
    - repeat constructor. eauto. }
  { apply Exists_app. right. constructor. exists 0. split; [assumption | lia]. }
  exists m. split; [exact Hm|].
  destruct (scan_rows_some _ _ _ _ Hm) as (pre & row' & post & d & _ & _ & Hd & _ & Hmd).
  split.
  - split; [|exact Hle]. subst m. cbn [hamming_distance].
    apply hammingDistance_length in Hd as Hlen.
    rewrite (hammingDistance_returns _ _ Hlen) in Hd. injection Hd as <-.
    apply differing_bounds.
  - intros Hdefault.
    assert (Hskip : scan_rows hash t (images st ++ [row])
                    = Return (Some (make_match row 0))).
    { rewrite scan_rows_skip.
      - apply scan_rows_hit; [assumption | lia].
      - eapply Forall_impl; [exact Hold|]. intros r. now apply beyond_weaken. }
    rewrite Hskip in Hm. injection Hm as <-. split; [reflexivity | exact Hid].
Qed.

Lemma saveImage_then_findDuplicate_witness :
  exists m,
    findDuplicate (saveImage detector calm one_far_row upload false).2
      (uploadDir detector ++ "img_65a1b2c3d4e5f6.12345678.png") 3 = Return (Some m) /\
    0 <= hamming_distance m <= 3 /\
    (3 <= default_threshold -> hamming_distance m = 0 /\ match_id m = 2).
Proof.
  apply (saveImage_then_findDuplicate detector calm one_far_row
           (saveImage detector calm one_far_row upload false).2 upload
           2 "img_65a1b2c3d4e5f6.12345678.png" "holiday.png" "0000000000000000" 3).
  - rewrite (surjective_pairing (saveImage detector calm one_far_row upload false)) at 1.
    f_equal.
  - lia.
Defined.

(** ** deleteImage *)

Lemma find_id_none (rows : list Row) (id0 : Z) :
  (forall r, r ∈ rows -> id r <> id0) ->
  find (fun row => id row =? id0) rows = None.
Proof.
  induction rows as [|row rows IH]; intros Hnone; [reflexivity|].
  simpl. destruct (Z.eqb_spec (id row) id0) as [Heq|_].
  - exfalso. apply (Hnone row); [left | exact Heq].
  - apply IH. intros r Hr. apply Hnone. now right.
Qed.

Lemma find_id_some (rows : list Row) (id0 : Z) :
  (exists r, r ∈ rows /\ id r = id0) ->
  exists image, find (fun row => id row =? id0) rows = Some image /\
                image ∈ rows /\ id image = id0.
Proof.
  induction rows as [|row rows IH]; intros (r & Hin & Hr); [inversion Hin|].
  simpl. destruct (Z.eqb_spec (id row) id0) as [Heq|Hne].
  - exists row. split; [reflexivity|]. split; [left | exact Heq].
  - destruct IH as (image & Hfind & Himage & Hid).
    { exists r. split; [|exact Hr].
      apply elem_of_cons in Hin as [->|Hin]; [contradiction | assumption]. }
    exists image. split; [exact Hfind|]. split; [now right | exact Hid].
Qed.

(** C10. [deleteImage] with an id that no record has returns [false] and
    leaves file store and table as they were; with an id some record has
    it returns [true], the file of that record is no longer in the store
    (every other file is), and the table has lost exactly the records with
    that id. *)
Theorem deleteImage_missing_or_removed (this : Detector) (st : State) (id0 : Z) :
  ((forall r, r ∈ images st -> id r <> id0) ->
     deleteImage this st id0 = (false, st)) /\
  ((exists r, r ∈ images st /\ id r = id0) ->
     exists image st',
       image ∈ images st /\ id image = id0 /\
       deleteImage this st id0 = (true, st') /\
       fs st' !! (uploadDir this ++ file_path image) = None /\
       (forall p, p <> uploadDir this ++ file_path image -> fs st' !! p = fs st !! p) /\
       (forall r, r ∈ images st' <-> r ∈ images st /\ id r <> id0) /\
       auto_increment st' = auto_increment st).
Proof.
  split.
  - intros Hnone. unfold deleteImage. now rewrite find_id_none.
  - intros Hsome.
    destruct (find_id_some _ _ Hsome) as (image & Hfind & Hin & Hid).
    unfold deleteImage. rewrite Hfind.
    eexists image, _. split; [exact Hin|]. split; [exact Hid|].
    split; [reflexivity|]. cbn [fs images auto_increment].
    split; [|split; [|split; [|reflexivity]]].
    + destruct (decide (is_Some (fs st !! (uploadDir this ++ file_path image))))
        as [_|Hno].
      * apply lookup_delete_eq.
      * destruct (fs st !! (uploadDir this ++ file_path image)) eqn:Hlook;
          [exfalso; apply Hno; eauto | reflexivity].
    + intros p Hp.
      destruct (decide (is_Some (fs st !! (uploadDir this ++ file_path image))));
        [now rewrite lookup_delete_ne | reflexivity].
    + intros r. rewrite list_elem_of_filter. tauto.
Qed.

Lemma deleteImage_missing_or_removed_witness :
  deleteImage detector two_images 7 = (false, two_images) /\
  exists image st',
    image ∈ images two_images /\ id image = 1 /\
    deleteImage detector two_images 1 = (true, st') /\
    fs st' !! (uploadDir detector ++ file_path image) = None /\
    (forall p, p <> uploadDir detector ++ file_path image ->
               fs st' !! p = fs two_images !! p) /\
    (forall r, r ∈ images st' <-> r ∈ images two_images /\ id r <> 1) /\
    auto_increment st' = auto_increment two_images.
Proof.
  split.
  - apply (deleteImage_missing_or_removed detector two_images 7).
    intros r Hr. repeat (apply elem_of_cons in Hr as [->|Hr]; [simpl; lia|]).
    inversion Hr.
  - apply (deleteImage_missing_or_removed detector two_images 1).
    exists (stored 1 "img_1.png" "0000000000000000"). split; [left | reflexivity].
Defined.

(* ================================================================== *)
(** * Further properties of the class and its callers *)

Lemma Return_inj {A : Type} (x y : A) : Return x = Return y -> x = y.
Proof. now intros [= ->]. Qed.

(** ** hammingDistance as a metric *)

Lemma differing_triangle (a : list bool) :
  forall b c,
    length a = length b -> length b = length c ->
    differing a c <= differing a b + differing b c.
Proof.
  induction a as [|x a IH]; intros [|y b] [|z c] Hab Hbc;
    simpl in *; try discriminate; try lia.
  injection Hab as Hab. injection Hbc as Hbc. specialize (IH b c Hab Hbc).
  destruct x, y, z; simpl; lia.
Qed.

Lemma differing_zero (a : list bool) :
  forall b, length a = length b -> differing a b = 0 -> a = b.
Proof.
  induction a as [|x a IH]; intros [|y b] Hlen Hzero; simpl in *;
    try discriminate; [reflexivity|].
  injection Hlen as Hlen. pose proof (differing_bounds a b).
  destruct x, y; simpl in Hzero; try lia; f_equal; apply IH; (assumption || lia).
Qed.

(** X1. Triangle inequality: for three hashes of one length the distance
    from the first to the third is at most the sum of the distances
    through the second. *)
Theorem hammingDistance_triangle (a b c : string) :
  String.length a = String.length b ->
  String.length b = String.length c ->
  exists dab dbc dac,
    hammingDistance a b = Return dab /\
    hammingDistance b c = Return dbc /\
    hammingDistance a c = Return dac /\
    dac <= dab + dbc.
Proof.
  intros Hab Hbc.
  exists (differing (fingerprint_bits a) (fingerprint_bits b)),
         (differing (fingerprint_bits b) (fingerprint_bits c)),
         (differing (fingerprint_bits a) (fingerprint_bits c)).
  repeat split; try (apply hammingDistance_returns; congruence).
  apply differing_triangle; rewrite !fingerprint_bits_length; lia.
Qed.

Lemma hammingDistance_triangle_witness :
  exists dab dbc dac,
    hammingDistance "00ff" "0ff0" = Return dab /\
    hammingDistance "0ff0" "ff00" = Return dbc /\
    hammingDistance "00ff" "ff00" = Return dac /\
    dac <= dab + dbc.
Proof. apply (hammingDistance_triangle "00ff" "0ff0" "ff00"); reflexivity. Defined.

Lemma lower_hex_char_cases (c : ascii) :
  lower_hex_char c = true ->
  exists a b c' d, c = nibble_char a b c' d.
Proof.
  unfold lower_hex_char. cbn [existsb list_ascii_of_string].
  rewrite !orb_true_iff. intros H.
  repeat (destruct H as [H|H]; [apply Ascii.eqb_eq in H; subst c|]);
    try discriminate.
  all: first
    [ now exists false, false, false, false | now exists false, false, false, true
    | now exists false, false, true, false | now exists false, false, true, true
    | now exists false, true, false, false | now exists false, true, false, true
    | now exists false, true, true, false | now exists false, true, true, true
    | now exists true, false, false, false | now exists true, false, false, true
    | now exists true, false, true, false | now exists true, false, true, true
    | now exists true, true, false, false | now exists true, true, false, true
    | now exists true, true, true, false | now exists true, true, true, true ].
Qed.

Lemma nibble_char_lower_hex (a b c d : bool) : lower_hex_char (nibble_char a b c d) = true.
Proof. destruct a, b, c, d; reflexivity. Qed.

Lemma hex_encoding_cons4 (a b c d : bool) (r : list bool) :
  hex_encoding (a :: b :: c :: d :: r) = String (nibble_char a b c d) (hex_encoding r).
Proof.
  unfold hex_encoding.
  rewrite !fold_append_bit_string, !string_app_empty_l, !bin_to_hex_chunks.
  apply hex_chunks_bits.
Qed.

(** X2. Decoding a string of lower-case hexadecimal digits to bits and
    encoding the bits the way [generateHash] does gives the string back. *)
Theorem fingerprint_bits_hex_encoding (h : string) :
  lower_hex h = true -> hex_encoding (fingerprint_bits h) = h.
Proof.
  induction h as [|c h IH]; [reflexivity|].
  cbn [lower_hex]. intros [Hc Hh]%andb_true_iff.
  destruct (lower_hex_char_cases c Hc) as (b3 & b2 & b1 & b0 & ->).
  cbn [fingerprint_bits]. rewrite nibble_bits_char.
  cbn [app]. rewrite hex_encoding_cons4, (IH Hh). reflexivity.
Qed.

Lemma fingerprint_bits_hex_encoding_witness :
  hex_encoding (fingerprint_bits "00c0ffee12345678") = "00c0ffee12345678".
Proof. apply (fingerprint_bits_hex_encoding "00c0ffee12345678"). reflexivity. Defined.

(** X3. Two hashes of lower-case hexadecimal digits are at distance 0
    exactly when they are the same string. *)
Theorem hammingDistance_zero_iff_equal (a b : string) :
  lower_hex a = true ->
  lower_hex b = true ->
  (hammingDistance a b = Return 0 <-> a = b).
Proof.
  intros Ha Hb. split; [|intros ->; apply hammingDistance_self].
  intros Hzero. pose proof (hammingDistance_length _ _ _ Hzero) as Hlen.
  rewrite (hammingDistance_returns _ _ Hlen) in Hzero. injection Hzero as Hzero.
  apply differing_zero in Hzero; [|rewrite !fingerprint_bits_length; lia].
  rewrite <- (fingerprint_bits_hex_encoding a Ha), <- (fingerprint_bits_hex_encoding b Hb).
  now rewrite Hzero.
Qed.

Lemma hammingDistance_zero_iff_equal_witness :
  hammingDistance "00c0ffee" "00c0ffee" = Return 0 <-> "00c0ffee" = "00c0ffee".
Proof. apply (hammingDistance_zero_iff_equal "00c0ffee" "00c0ffee"); reflexivity. Defined.

(** ** The shape of a generated hash *)

Lemma hex_encoding_lower_hex (k : nat) :
  forall bits, length bits = (4 * k)%nat -> lower_hex (hex_encoding bits) = true.
Proof.
  induction k as [|k IH]; intros bits Hlen.
  - destruct bits; [reflexivity | discriminate].
  - destruct bits as [|a [|b [|c [|d r]]]]; simpl in Hlen; try lia.
    rewrite hex_encoding_cons4. cbn [lower_hex].
    rewrite nibble_char_lower_hex, IH by lia. reflexivity.
Qed.

(** X4. Whatever the image, a hash [generateHash] returns consists of
    exactly sixteen lower-case hexadecimal digits. *)
Theorem generateHash_sixteen_lower_hex
    (files : gmap string File) (path h : string) :
  generateHash files path = Return h ->
  String.length h = 16%nat /\ lower_hex h = true.
Proof.
  intros Hgen.
  destruct (loadImage files path) as [img|] eqn:Hload.
  - rewrite (generateHash_encoding _ _ _ Hload) in Hgen.
    apply Return_inj in Hgen. subst h.
    assert (Hlen : length (map (fun pixel => Num.gt pixel (computed_mean img))
                               (read_pixels (gd_resampled img))) = (4 * 16)%nat)
      by now rewrite length_map, read_pixels_length.
    split; [apply (hex_encoding_round_trip 16 _ Hlen) | apply (hex_encoding_lower_hex 16 _ Hlen)].
  - unfold generateHash in Hgen. rewrite Hload in Hgen. discriminate.
Qed.

Lemma generateHash_sixteen_lower_hex_witness :
  String.length "00000000ffffffff" = 16%nat /\ lower_hex "00000000ffffffff" = true.
Proof.
  apply (generateHash_sixteen_lower_hex
           {[ "halves.png" := png (two_tone 0 16777215) ]} "halves.png").
  vm_compute. reflexivity.
Defined.

(** ** Edge behaviour of findDuplicate *)

Lemma hammingDistance_nonneg (a b : string) (d : Z) :
  hammingDistance a b = Return d -> 0 <= d <= 4 * Z.of_nat (String.length a).
Proof.
  intros Hd. pose proof (hammingDistance_length _ _ _ Hd) as Hlen.
  rewrite (hammingDistance_returns _ _ Hlen) in Hd. apply Return_inj in Hd. subst d.
  pose proof (differing_bounds (fingerprint_bits a) (fingerprint_bits b)) as Hb.
  rewrite fingerprint_bits_length in Hb. lia.
Qed.

(** X5. With a negative threshold [findDuplicate] never reports a match. *)
Theorem findDuplicate_negative_threshold
    (st : State) (path : string) (t : Z) (m : Match) :
  t < 0 -> findDuplicate st path t <> Return (Some m).
Proof.
  intros Ht Hfound. unfold findDuplicate in Hfound.
  destruct (generateHash (fs st) path) as [hash|msg]; [|discriminate].
  destruct (scan_rows_some _ _ _ _ Hfound) as (_ & row & _ & d & _ & _ & Hd & Hle & _).
  apply hammingDistance_nonneg in Hd. lia.
Qed.

Lemma findDuplicate_negative_threshold_witness :
  findDuplicate nearer_second "/tmp/phpA" (-1)
  <> Return (Some (make_match (stored 2 "img_2.png" "0000000000000000") 0)).
Proof. apply (findDuplicate_negative_threshold nearer_second "/tmp/phpA" (-1)). lia. Defined.

(** X6. When the hash of the first record has sixteen digits and the
    threshold is 64 or more, every image that decodes is reported as a
    duplicate of that first record. *)
Theorem findDuplicate_threshold_64_matches_first
    (st : State) (path : string) (img : GdImage) (t : Z) (row : Row) (rest : list Row) :
  loadImage (fs st) path = Some img ->
  images st = row :: rest ->
  String.length (phash row) = 16%nat ->
  64 <= t ->
  exists d, 0 <= d <= 64 /\
            findDuplicate st path t = Return (Some (make_match row d)).
Proof.
  intros Hload Hrows Hrow Ht. unfold findDuplicate.
  destruct (generateHash (fs st) path) as [hash|msg] eqn:Hgen;
    [|rewrite (generateHash_encoding _ _ _ Hload) in Hgen; discriminate].
  destruct (generateHash_sixteen_lower_hex _ _ _ Hgen) as [Hlen _].
  assert (Hd : hammingDistance hash (phash row)
               = Return (differing (fingerprint_bits hash) (fingerprint_bits (phash row))))
    by (apply hammingDistance_returns; congruence).
  pose proof (hammingDistance_nonneg _ _ _ Hd) as Hbound. rewrite Hlen in Hbound.
  eexists. split; [|rewrite Hrows; apply (scan_rows_hit _ _ _ _ _ Hd); lia]. lia.
Qed.

Lemma findDuplicate_threshold_64_matches_first_witness :
  exists d, 0 <= d <= 64 /\
            findDuplicate one_far_row "/tmp/phpA" 64
            = Return (Some (make_match (stored 1 "img_1.png" "000000000000007f") d)).
Proof.
  apply (findDuplicate_threshold_64_matches_first one_far_row "/tmp/phpA" (solid 0) 64
           (stored 1 "img_1.png" "000000000000007f") []).
  - vm_compute. reflexivity.
  - reflexivity.
  - reflexivity.
  - lia.
Defined.

(** X7. A stored hash whose length differs from the candidate's makes
    [findDuplicate] throw the length exception, unless a record before it
    is already within the threshold. *)
Theorem findDuplicate_malformed_row_throws
    (st : State) (path hash : string) (t : Z) (pre post : list Row) (bad : Row) :
  generateHash (fs st) path = Return hash ->
  images st = (pre ++ bad :: post)%list ->
  Forall (beyond hash t) pre ->
  String.length (phash bad) <> String.length hash ->
  findDuplicate st path t = Throw "Hashes must be the same length".
Proof.
  intros Hgen Hrows Hpre Hbad. unfold findDuplicate.
  rewrite Hgen, Hrows, scan_rows_skip by assumption.
  cbn [scan_rows]. rewrite hammingDistance_throws by congruence. reflexivity.
Qed.

Lemma findDuplicate_malformed_row_throws_witness :
  findDuplicate
    {| fs := {[ "/tmp/phpA" := png (solid 0) ]};
       images := [stored 1 "img_1.png" "000000000000007f"; stored 2 "img_2.png" "00ff"];
       auto_increment := 3 |} "/tmp/phpA" 5
  = Throw "Hashes must be the same length".
Proof.
  apply (findDuplicate_malformed_row_throws _ "/tmp/phpA" "0000000000000000" 5
           [stored 1 "img_1.png" "000000000000007f"] [] (stored 2 "img_2.png" "00ff")).
  - vm_compute. reflexivity.
  - reflexivity.
  - repeat constructor. exists 7. split; [vm_compute; reflexivity | lia].
  - simpl. lia.
Defined.

(** X8. In a table whose stored hashes all have sixteen digits
    [findDuplicate] throws only when the image cannot be loaded: for an
    image that decodes it returns normally. *)
Theorem findDuplicate_returns_on_sound_table
    (st : State) (path : string) (img : GdImage) (t : Z) :
  hashes_ok st ->
  loadImage (fs st) path = Some img ->
  exists result, findDuplicate st path t = Return result.
Proof.
  intros Hok Hload. unfold findDuplicate.
  destruct (generateHash (fs st) path) as [hash|msg] eqn:Hgen;
    [|rewrite (generateHash_encoding _ _ _ Hload) in Hgen; discriminate].
  destruct (generateHash_sixteen_lower_hex _ _ _ Hgen) as [Hlen _].
  unfold hashes_ok in Hok. induction Hok as [|row rows [Hrow _] _ IH]; cbn [scan_rows].
  - eauto.
  - rewrite hammingDistance_returns by congruence.
    destruct (_ <=? t); [eauto | exact IH].
Qed.

Lemma findDuplicate_returns_on_sound_table_witness :
  exists result, findDuplicate nearer_second "/tmp/phpA" 5 = Return result.
Proof.
  apply (findDuplicate_returns_on_sound_table nearer_second "/tmp/phpA" (solid 0) 5).
  - repeat constructor.
  - vm_compute. reflexivity.
Defined.

Lemma similarity_in_range_all (d : Z) : 0 <= d <= 64 -> similarity_in_range d = true.
Proof.
  intros Hd.
  assert (Hall : forallb similarity_in_range (seqZ 0 65) = true) by (vm_compute; reflexivity).
  rewrite forallb_forall in Hall. apply Hall, list_elem_of_In, elem_of_seqZ. lia.
Qed.

(** X9. In a table whose stored hashes all have sixteen digits, a match
    has a distance between 0 and 64 and a similarity between 0 and 100;
    the similarity is 100 exactly when the distance is 0. *)
Theorem findDuplicate_similarity_range
    (st : State) (path : string) (t : Z) (m : Match) :
  hashes_ok st ->
  findDuplicate st path t = Return (Some m) ->
  0 <= hamming_distance m <= 64 /\
  Num.gt (similarity m) (PInt 100) = false /\
  Num.gt (PInt 0) (similarity m) = false /\
  (Num.gt (PInt 100) (similarity m) = false <-> hamming_distance m = 0).
Proof.
  intros Hok Hfound. unfold findDuplicate in Hfound.
  destruct (generateHash (fs st) path) as [hash|msg] eqn:Hgen; [|discriminate].
  destruct (generateHash_sixteen_lower_hex _ _ _ Hgen) as [Hlen _].
  destruct (scan_rows_some _ _ _ _ Hfound) as (pre & row & post & d & _ & _ & Hd & _ & ->).
  apply hammingDistance_nonneg in Hd. rewrite Hlen in Hd.
  assert (Hd64 : 0 <= d <= 64) by lia.
  pose proof (similarity_in_range_all d Hd64) as Hsim.
  unfold similarity_in_range in Hsim. cbn [make_match similarity hamming_distance] in *.
  apply andb_true_iff in Hsim as [[Hhi Hlo]%andb_true_iff Hzero].
  apply negb_true_iff in Hhi, Hlo.
  split; [exact Hd64|]. split; [exact Hhi|]. split; [exact Hlo|].
  destruct (Z.eqb_spec d 0) as [->|Hne].
  - split; [reflexivity|]. intros _. vm_compute. reflexivity.
  - rewrite Hzero. split; [discriminate | contradiction].
Qed.

Lemma findDuplicate_similarity_range_witness :
  let m := make_match (stored 1 "img_1.png" "0000000000000007") 3 in
  0 <= hamming_distance m <= 64 /\
  Num.gt (similarity m) (PInt 100) = false /\
  Num.gt (PInt 0) (similarity m) = false /\
  (Num.gt (PInt 100) (similarity m) = false <-> hamming_distance m = 0).
Proof.
  apply (findDuplicate_similarity_range nearer_second "/tmp/phpA" 5).
  - repeat constructor.
  - vm_compute. reflexivity.
Defined.

(** ** The outcomes of saveImage *)

(** Every run of [saveImage] ends in one of three ways: before the file
    is moved (state untouched, no success), in the catch branch after the
    move (file removed again, database error), or with the row inserted. *)
Lemma saveImage_cases
    (this : Detector) (env : Env) (st : State) (file : Upload) (allowDuplicates : bool) :
  let outcome := saveImage this env st file allowDuplicates in
  let filepath := new_file_path this env file in
  (outcome.2 = st /\
   (forall e, outcome.1 <> Return (SaveFailed ("Database error: " ++ e))) /\
   forall i n o h, outcome.1 <> Return (SaveOk i n o h)) \/
  (exists f e,
     fs st !! tmp_name file = Some f /\
     outcome.1 = Return (SaveFailed ("Database error: " ++ e)) /\
     outcome.2 = {| fs := delete filepath (delete (tmp_name file) (fs st));
                    images := images st;
                    auto_increment := auto_increment st |}) \/
  (exists f hash,
     fs st !! tmp_name file = Some f /\
     generateHash (<[filepath := f]> (delete (tmp_name file) (fs st))) filepath
       = Return hash /\
     outcome.1 = Return (SaveOk (auto_increment st) (new_file_name env file)
                           (name file) hash) /\
     outcome.2 = {| fs := <[filepath := f]> (delete (tmp_name file) (fs st));
                    images := images st ++ [new_row env st file f hash];
                    auto_increment := auto_increment st + 1 |}).
Proof.
  cbv zeta. unfold saveImage, new_file_path, new_file_name.
  destruct (negb (error file =? UPLOAD_ERR_OK)).
  { left. repeat split; intros; discriminate. }
  destruct (negb (in_array _ allowedTypes)).
  { left. repeat split; intros; discriminate. }
  destruct (if negb allowDuplicates then _ else _) as [[dup|]|msg].
  { left. repeat split; intros; discriminate. }
  2: { left. repeat split; intros; discriminate. }
  unfold move_uploaded_file, finfo_file.
  destruct (fs st !! tmp_name file) as [f|] eqn:Htmp.
  2: { left. repeat split; intros; discriminate. }
  destruct (move_ok env).
  2: { left. repeat split; intros; discriminate. }
  cbn [fs images auto_increment].
  set (filepath := uploadDir this ++ uniqid env ++ "." ++ pathinfo_extension (name file)).
  destruct (generateHash (<[filepath:=f]> (delete (tmp_name file) (fs st))) filepath)
    as [hash|msg] eqn:Hhash.
  - destruct (insert_error env) as [msg|].
    + right. left. exists f, msg. split; [reflexivity|]. split; [reflexivity|].
      unfold unlink. cbn [snd fs images auto_increment]. now rewrite delete_insert_eq.
    + right. right. exists f, hash. split; [reflexivity|]. split; [exact Hhash|].
      split; [reflexivity|]. cbn [snd insert_row fs images auto_increment].
      unfold new_row, new_file_name. cbn [fmap option_fmap option_map default].
      rewrite lookup_insert_eq. reflexivity.
  - right. left. exists f, msg. split; [reflexivity|]. split; [reflexivity|].
    unfold unlink. cbn [snd fs images auto_increment]. now rewrite delete_insert_eq.
Qed.

(** X10. [saveImage] lets an exception escape exactly when duplicates are
    not allowed, the upload has passed both validation guards and the
    duplicate check itself throws (the image cannot be loaded, or a stored
    hash has another length); the state is then untouched.  In particular
    it never throws when duplicates are allowed. *)
Theorem saveImage_throws_iff
    (this : Detector) (env : Env) (st st' : State) (file : Upload)
    (allowDuplicates : bool) (msg : string) :
  saveImage this env st file allowDuplicates = (Throw msg, st') <->
  allowDuplicates = false /\
  error file = UPLOAD_ERR_OK /\
  in_array (finfo_file (fs st) (tmp_name file)) allowedTypes = true /\
  findDuplicate st (tmp_name file) default_threshold = Throw msg /\
  st' = st.
Proof.
  unfold saveImage. split.
  - destruct (Z.eqb_spec (error file) UPLOAD_ERR_OK) as [Herr|_]; [|discriminate].
    destruct (in_array _ allowedTypes) eqn:Hmime; [|discriminate].
    cbn [negb]. destruct allowDuplicates; cbn [negb].
    + destruct (move_uploaded_file _ _ _ _); [|discriminate].
      destruct (generateHash _ _); [|discriminate].
      destruct (insert_error env); discriminate.
    + destruct (findDuplicate st (tmp_name file) default_threshold) as [[dup|]|msg'];
        try discriminate.
      * destruct (move_uploaded_file _ _ _ _); [|discriminate].
        destruct (generateHash _ _); [|discriminate].
        destruct (insert_error env); discriminate.
      * intros [= -> ->]. repeat split; assumption.
  - intros (-> & Herr & Hmime & Hdup & ->).
    rewrite Herr, Hmime. cbn [negb Z.eqb UPLOAD_ERR_OK]. now rewrite Hdup.
Qed.

(** X11. When [saveImage] returns success, the returned id is the old
    AUTO_INCREMENT value, the returned name is the generated one, the
    upload's file now lies under that name in the upload directory and no
    longer under its temporary name, and exactly one row (with that id,
    the original name, the hash of the stored file and the detected MIME
    type) has been appended to the table. *)
Theorem saveImage_success_stores_upload
    (this : Detector) (env : Env) (st st' : State) (file : Upload)
    (allowDuplicates : bool) (new_id : Z) (stored_name original hash : string) :
  saveImage this env st file allowDuplicates
  = (Return (SaveOk new_id stored_name original hash), st') ->
  exists f,
    fs st !! tmp_name file = Some f /\
    new_id = auto_increment st /\
    stored_name = new_file_name env file /\
    original = name file /\
    generateHash (fs st') (uploadDir this ++ stored_name) = Return hash /\
    fs st' = <[uploadDir this ++ stored_name := f]> (delete (tmp_name file) (fs st)) /\
    images st' = (images st ++ [new_row env st file f hash])%list /\
    auto_increment st' = auto_increment st + 1.
Proof.
  intros Hsave.
  pose proof (saveImage_cases this env st file allowDuplicates) as Hcases.
  cbv zeta in Hcases. rewrite Hsave in Hcases. cbn [fst snd] in Hcases.
  destruct Hcases as [(_ & _ & Hno) | [(f & e & _ & Hres & _) | (f & h & Htmp & Hgen & Hres & ->)]].
  - now destruct (Hno new_id stored_name original hash).
  - discriminate.
  - injection Hres as -> -> -> ->. exists f. cbn [fs images auto_increment].
    repeat split; assumption || reflexivity.
Qed.

Lemma saveImage_success_stores_upload_witness :
  exists f,
    fs one_far_row !! tmp_name upload = Some f /\
    2 = auto_increment one_far_row /\
    "img_65a1b2c3d4e5f6.12345678.png" = new_file_name calm upload /\
    "holiday.png" = name upload /\
    generateHash (fs (saveImage detector calm one_far_row upload false).2)
      (uploadDir detector ++ "img_65a1b2c3d4e5f6.12345678.png")
      = Return "0000000000000000" /\
    fs (saveImage detector calm one_far_row upload false).2
      = <[uploadDir detector ++ "img_65a1b2c3d4e5f6.12345678.png" := f]>
          (delete (tmp_name upload) (fs one_far_row)) /\
    images (saveImage detector calm one_far_row upload false).2
      = (images one_far_row ++ [new_row calm one_far_row upload f "0000000000000000"])%list /\
    auto_increment (saveImage detector calm one_far_row upload false).2
      = auto_increment one_far_row + 1.
Proof.
  apply (saveImage_success_stores_upload detector calm one_far_row _ upload false).
  rewrite (surjective_pairing (saveImage detector calm one_far_row upload false)) at 1.
  f_equal.
Defined.

(** X12. Whenever [saveImage] does not return success (a failure array or
    an exception), the table and the AUTO_INCREMENT counter are as before,
    and the file store is either untouched or has lost the temporary file
    and whatever lay at the generated path, which happens only with a
    database error. *)
Theorem saveImage_failure_keeps_table
    (this : Detector) (env : Env) (st : State) (file : Upload) (allowDuplicates : bool) :
  let outcome := saveImage this env st file allowDuplicates in
  (forall i n o h, outcome.1 <> Return (SaveOk i n o h)) ->
  images outcome.2 = images st /\
  auto_increment outcome.2 = auto_increment st /\
  (fs outcome.2 = fs st \/
   (exists e, outcome.1 = Return (SaveFailed ("Database error: " ++ e))) /\
   fs outcome.2 = delete (new_file_path this env file) (delete (tmp_name file) (fs st))).
Proof.
  intros outcome Hfail.
  destruct (saveImage_cases this env st file allowDuplicates)
    as [(Hst & _ & _) | [(f & e & _ & Hres & Hst) | (f & h & _ & _ & Hres & _)]];
    fold outcome in Hst || fold outcome in Hres.
  - rewrite Hst. auto.
  - fold outcome in Hres. rewrite Hst. cbn [fs images auto_increment].
    split; [reflexivity|]. split; [reflexivity|]. right. eauto.
  - now destruct (Hfail _ _ _ _ Hres).
Qed.

Lemma saveImage_failure_keeps_table_witness :
  let outcome := saveImage detector failing_insert one_far_row upload false in
  images outcome.2 = images one_far_row /\
  auto_increment outcome.2 = auto_increment one_far_row /\
  (fs outcome.2 = fs one_far_row \/
   (exists e, outcome.1 = Return (SaveFailed ("Database error: " ++ e))) /\
   fs outcome.2 = delete (new_file_path detector failing_insert upload)
                         (delete (tmp_name upload) (fs one_far_row))).
Proof.
  apply (saveImage_failure_keeps_table detector failing_insert one_far_row upload false).
  intros i n o h. vm_compute. discriminate.
Defined.

Lemma saveImage_throws_iff_witness :
  saveImage detector calm one_garbled_upload upload false
  = (Throw "Failed to load image: /tmp/phpA", one_garbled_upload).
Proof.
  apply (saveImage_throws_iff detector calm one_garbled_upload one_garbled_upload
           upload false "Failed to load image: /tmp/phpA").
  repeat split; vm_compute; reflexivity.
Defined.

(** ** Invariants of the table *)

Lemma Forall_filter_keep {A : Type} (P Q : A -> Prop) `{!forall x, Decision (P x)}
    (l : list A) :
  Forall Q l -> Forall Q (filter P l).
Proof.
  induction 1 as [|x l Hx _ IH]; [constructor|].
  rewrite filter_cons. destruct (decide (P x)); [constructor|]; assumption.
Qed.

Lemma NoDup_map_filter {A B : Type} (f : A -> B) (P : A -> Prop)
    `{!forall x, Decision (P x)} (l : list A) :
  NoDup (map f l) -> NoDup (map f (filter P l)).
Proof.
  induction l as [|x l IH]; [trivial|].
  cbn [map]. intros [Hx Hl]%NoDup_cons. rewrite filter_cons.
  destruct (decide (P x)); [|auto].
  cbn [map]. apply NoDup_cons. split; [|auto].
  intros Hin. apply Hx. apply list_elem_of_In, in_map_iff in Hin as (y & Hy & Hin).
  apply list_elem_of_In, in_map_iff. exists y. split; [exact Hy|].
  apply list_elem_of_In. apply list_elem_of_In, list_elem_of_filter in Hin. tauto.
Qed.

Lemma NoDup_map_snoc {A B : Type} (f : A -> B) (l : list A) (x : A) :
  NoDup (map f l) -> (forall y, y ∈ l -> f y <> f x) -> NoDup (map f (l ++ [x])).
Proof.
  intros Hl Hx. rewrite map_app. apply NoDup_app. split; [exact Hl|]. split.
  - intros b Hb Hbx. apply list_elem_of_In, in_map_iff in Hb as (y & <- & Hy).
    apply list_elem_of_singleton in Hbx. apply (Hx y); [now apply list_elem_of_In | exact Hbx].
  - apply NoDup_singleton.
Qed.


(** X13. The primary key is kept: if the ids of the table are distinct and
    below the AUTO_INCREMENT counter, they still are after [saveImage]
    (whatever its outcome) and after [deleteImage]. *)
Theorem keys_ok_preserved
    (this : Detector) (env : Env) (st : State) (file : Upload)
    (allowDuplicates : bool) (id0 : Z) :
  keys_ok st ->
  keys_ok (saveImage this env st file allowDuplicates).2 /\
  keys_ok (deleteImage this st id0).2.
Proof.
  intros [Hnd Hlt]. split.
  - destruct (saveImage_cases this env st file allowDuplicates)
      as [(-> & _) | [(f & e & _ & _ & ->) | (f & h & _ & _ & _ & ->)]];
      [split; assumption | split; assumption |].
    split; cbn [images auto_increment].
    + apply NoDup_map_snoc; [exact Hnd|]. intros y Hy. cbn [new_row id].
      rewrite Forall_forall in Hlt. specialize (Hlt y Hy). lia.
    + apply Forall_app. split.
      * eapply Forall_impl; [exact Hlt|]. cbn. intros; lia.
      * repeat constructor. cbn [new_row id]. lia.
  - unfold deleteImage. destruct (find _ (images st)); [|split; assumption].
    split; cbn [snd images auto_increment].
    + now apply NoDup_map_filter.
    + now apply Forall_filter_keep.
Qed.

Lemma keys_ok_preserved_witness :
  keys_ok (saveImage detector calm one_far_row upload false).2 /\
  keys_ok (deleteImage detector one_far_row 1).2.
Proof.
  apply (keys_ok_preserved detector calm one_far_row upload false 1).
  split.
  - cbn. apply NoDup_singleton.
  - repeat constructor.
Defined.

(** X14. The stored hashes keep their shape: if every stored hash has
    sixteen lower-case hexadecimal digits, the same holds after
    [saveImage] (whatever its outcome) and after [deleteImage]. *)
Theorem hashes_ok_preserved
    (this : Detector) (env : Env) (st : State) (file : Upload)
    (allowDuplicates : bool) (id0 : Z) :
  hashes_ok st ->
  hashes_ok (saveImage this env st file allowDuplicates).2 /\
  hashes_ok (deleteImage this st id0).2.
Proof.
  unfold hashes_ok. intros Hok. split.
  - destruct (saveImage_cases this env st file allowDuplicates)
      as [(-> & _) | [(f & e & _ & _ & ->) | (f & h & _ & Hgen & _ & ->)]];
      [assumption | assumption |].
    cbn [images]. apply Forall_app. split; [exact Hok|].
    repeat constructor; cbn [new_row phash];
      apply (generateHash_sixteen_lower_hex _ _ _ Hgen).
  - unfold deleteImage. destruct (find _ (images st)); [|assumption].
    cbn [snd images]. now apply Forall_filter_keep.
Qed.

Lemma hashes_ok_preserved_witness :
  hashes_ok (saveImage detector calm one_far_row upload false).2 /\
  hashes_ok (deleteImage detector one_far_row 1).2.
Proof.
  apply (hashes_ok_preserved detector calm one_far_row upload false 1).
  repeat constructor.
Defined.

(** ** Table and upload directory stay in step *)

(** X15. If table and upload directory agree (distinct stored paths,
    every record has its file, every file under the upload directory has
    its record), the temporary file does not lie under the upload
    directory and the generated path is not yet taken, then they still
    agree after [saveImage], whatever its outcome. *)
Theorem saveImage_keeps_in_sync
    (this : Detector) (env : Env) (st : State) (file : Upload) (allowDuplicates : bool) :
  in_sync this st ->
  (forall p, tmp_name file <> uploadDir this ++ p) ->
  fs st !! new_file_path this env file = None ->
  in_sync this (saveImage this env st file allowDuplicates).2.
Proof.
  intros (Hnd & Hbacked & Howned) Htmp Hfresh.
  assert (Hold : forall r, r ∈ images st ->
            uploadDir this ++ file_path r <> new_file_path this env file /\
            uploadDir this ++ file_path r <> tmp_name file).
  { intros r Hr. split.
    - intros Heq. destruct (Hbacked r Hr) as [f Hf]. congruence.
    - intros Heq. now apply (Htmp (file_path r)). }
  destruct (saveImage_cases this env st file allowDuplicates)
    as [(-> & _) | [(f & e & _ & _ & ->) | (f & h & _ & _ & _ & ->)]];
    [repeat split; assumption | |]; unfold in_sync; cbn [fs images].
  - split; [exact Hnd|]. split.
    + intros r Hr. destruct (Hold r Hr) as [Hne1 Hne2].
      rewrite !lookup_delete_ne by congruence. auto.
    + intros p [g Hg]. apply lookup_delete_Some in Hg as [_ Hg].
      apply lookup_delete_Some in Hg as [_ Hg]. apply Howned. eauto.
  - split; [|split].
    + apply NoDup_map_snoc; [exact Hnd|]. intros y Hy Heq.
      destruct (Hold y Hy) as [Hne _]. apply Hne.
      unfold new_file_path. cbn [new_row file_path] in Heq. now rewrite Heq.
    + intros r [Hr | ->%list_elem_of_singleton]%elem_of_app.
      * destruct (Hold r Hr) as [Hne1 Hne2].
        rewrite lookup_insert_ne, lookup_delete_ne by congruence. auto.
      * cbn [new_row file_path]. fold (new_file_path this env file).
        rewrite lookup_insert_eq. eauto.
    + intros p [g Hg].
      destruct (decide (new_file_path this env file = uploadDir this ++ p)) as [Heq|Hne].
      * exists (new_row env st file f h). split; [apply elem_of_app; right; left|].
        cbn [new_row file_path]. unfold new_file_path in Heq.
        now apply String.app_inj in Heq.
      * rewrite lookup_insert_ne in Hg by assumption.
        apply lookup_delete_Some in Hg as [_ Hg].
        destruct (Howned p) as (r & Hr & Hp); [eauto|].
        exists r. split; [apply elem_of_app; now left | exact Hp].
Qed.

Lemma one_stored_in_sync : in_sync detector one_stored.
Proof.
  unfold in_sync, one_stored. cbn [fs images]. split; [|split].
  - cbn. apply NoDup_singleton.
  - intros r ->%list_elem_of_singleton. vm_compute. eauto.
  - intros p [g Hg]. exists (stored 1 "img_1.png" "00000000ffffffff").
    split; [left|]. cbn [stored file_path].
    apply lookup_insert_Some in Hg as [[Heq _] | [_ Hg]].
    + exfalso. revert Heq. cbn. discriminate.
    + apply lookup_singleton_Some in Hg as [Heq _].
      change "/var/www/uploads/img_1.png" with (uploadDir detector ++ "img_1.png") in Heq.
      symmetry. now apply String.app_inj in Heq.
Qed.

Lemma saveImage_keeps_in_sync_witness :
  in_sync detector
    (saveImage detector calm
       one_stored upload false).2.
Proof.
  apply (saveImage_keeps_in_sync detector calm one_stored upload false).
  - exact one_stored_in_sync.
  - intros p. cbn. discriminate.
  - vm_compute. reflexivity.
Defined.



(** ** Saving and deleting compose *)

Lemma filter_id_keep (rows : list Row) (id0 : Z) :
  Forall (fun r => id r <> id0) rows ->
  filter (fun row => id row <> id0) rows = rows.
Proof.
  induction 1 as [|r rows Hr _ IH]; [reflexivity|].
  rewrite filter_cons_True by assumption. now rewrite IH.
Qed.

(** X17. Round trip: when the ids of the table are below the
    AUTO_INCREMENT counter, deleting the id a successful [saveImage] has
    just returned succeeds, removes the stored file again and leaves the
    table exactly as it was before the save (the counter stays
    advanced). *)
Theorem saveImage_then_deleteImage
    (this : Detector) (env : Env) (st st' : State) (file : Upload)
    (allowDuplicates : bool) (new_id : Z) (stored_name original hash : string) :
  keys_ok st ->
  saveImage this env st file allowDuplicates
  = (Return (SaveOk new_id stored_name original hash), st') ->
  exists st'',
    deleteImage this st' new_id = (true, st'') /\
    images st'' = images st /\
    fs st'' = delete (uploadDir this ++ stored_name) (delete (tmp_name file) (fs st)) /\
    auto_increment st'' = auto_increment st + 1.
Proof.
  intros [_ Hlt] Hsave.
  destruct (saveImage_success_stores_upload _ _ _ _ _ _ _ _ _ _ Hsave)
    as (f & _ & -> & -> & _ & _ & Hfs & Himages & Hai).
  assert (Hfresh : Forall (fun r => id r <> auto_increment st) (images st)).
  { eapply Forall_impl; [exact Hlt|]. cbn. intros; lia. }
  unfold deleteImage. rewrite Himages.
  assert (Hfind : find (fun row => id row =? auto_increment st)
                    (images st ++ [new_row env st file f hash])
                  = Some (new_row env st file f hash)).
  { clear -Hfresh. induction Hfresh as [|r rows Hr _ IH]; cbn.
    - now rewrite Z.eqb_refl.
    - destruct (Z.eqb_spec (id r) (auto_increment st)); [contradiction | exact IH]. }
  rewrite Hfind. cbn [new_row file_path]. rewrite Hfs, lookup_insert_eq.
  destruct (decide (is_Some (Some f))) as [_|Hno]; [|exfalso; apply Hno; eauto].
  eexists. split; [reflexivity|]. cbn [images fs auto_increment].
  split; [|split; [apply delete_insert_eq | exact Hai]].
  rewrite filter_app, filter_id_keep by assumption.
  rewrite filter_cons_False, filter_nil by (cbn; intros Hne; now apply Hne).
  apply app_nil_r.
Qed.

Lemma saveImage_then_deleteImage_witness :
  exists st'',
    deleteImage detector (saveImage detector calm one_far_row upload false).2 2 = (true, st'') /\
    images st'' = images one_far_row /\
    fs st'' = delete (uploadDir detector ++ "img_65a1b2c3d4e5f6.12345678.png")
                     (delete (tmp_name upload) (fs one_far_row)) /\
    auto_increment st'' = auto_increment one_far_row + 1.
Proof.
  apply (saveImage_then_deleteImage detector calm one_far_row
           (saveImage detector calm one_far_row upload false).2 upload false
           2 "img_65a1b2c3d4e5f6.12345678.png" "holiday.png" "0000000000000000").
  - split; [cbn; apply NoDup_singleton | repeat constructor].
  - rewrite (surjective_pairing (saveImage detector calm one_far_row upload false)) at 1.
    f_equal.
Defined.

(** X18. Deleting is idempotent: a second [deleteImage] of the same id
    finds nothing, returns [false] and changes nothing. *)
Theorem deleteImage_twice (this : Detector) (st : State) (id0 : Z) :
  deleteImage this (deleteImage this st id0).2 id0
  = (false, (deleteImage this st id0).2).
Proof.
  assert (Hgone : forall r, r ∈ images (deleteImage this st id0).2 -> id r <> id0).
  { unfold deleteImage. destruct (find _ (images st)) eqn:Hfind; cbn [snd images].
    - intros x [Hne _]%list_elem_of_filter. exact Hne.
    - intros x Hx. apply list_elem_of_In in Hx.
      apply (find_none _ _ Hfind) in Hx. now apply Z.eqb_neq in Hx. }
  unfold deleteImage at 1. now rewrite (find_id_none _ _ Hgone).
Qed.

(** ** Flat images *)

Lemma add_small (a b : Z) :
  0 <= a <= 1000000 -> 0 <= b <= 1000000 ->
  Num.add (PInt a) (PInt b) = PInt (a + b).
Proof.
  intros Ha Hb. unfold Num.add, Num.PHP_INT_MIN, Num.PHP_INT_MAX.
  change (2 ^ 63) with 9223372036854775808.
  destruct (_ <=? a + b) eqn:Hlo; [|apply Z.leb_gt in Hlo; lia].
  destruct (a + b <=? _) eqn:Hhi; [reflexivity | apply Z.leb_gt in Hhi; lia].
Qed.

Lemma sum_repeat (k : Z) (n : nat) :
  0 <= k <= 255 ->
  forall a, 0 <= a <= 100000 - Z.of_nat n * 255 ->
    fold_left Num.add (repeat (PInt k) n) (PInt a) = PInt (a + Z.of_nat n * k).
Proof.
  intros Hk. induction n as [|n IH]; intros a Ha; cbn [repeat fold_left].
  - f_equal. lia.
  - rewrite add_small by lia. rewrite IH by lia. f_equal. lia.
Qed.

Lemma channel_range (rgb k : Z) : 0 <= channel rgb k <= 255.
Proof. unfold channel. pose proof (Z.mod_pos_bound (rgb / 256 ^ k) 256). lia. Qed.

Lemma hex_encoding_zero : hex_encoding (repeat false 64) = "0000000000000000".
Proof. vm_compute. reflexivity. Qed.

(** X19. An image in which the three channels of every cell add up to the
    same multiple of three (the flat images black, white, every pure grey,
    pure red (255, 0, 0), ...) gets the hash of sixteen zeros, whatever
    the colour: all such images are at distance 0 from one another. *)
Theorem generateHash_flat_exact
    (files : gmap string File) (path : string) (img : GdImage) (k : Z) :
  loadImage files path = Some img ->
  (forall x y : nat, (x < 8)%nat -> (y < 8)%nat ->
     let rgb := gd_resampled img (Z.of_nat x) (Z.of_nat y) in
     channel rgb 2 + channel rgb 1 + channel rgb 0 = 3 * k) ->
  generateHash files path = Return "0000000000000000".
Proof.
  intros Hload Hflat. cbv zeta in Hflat.
  assert (Hk : 0 <= k <= 255).
  { specialize (Hflat 0%nat 0%nat ltac:(lia) ltac:(lia)).
    pose proof (channel_range (gd_resampled img (Z.of_nat 0) (Z.of_nat 0)) 2).
    pose proof (channel_range (gd_resampled img (Z.of_nat 0) (Z.of_nat 0)) 1).
    pose proof (channel_range (gd_resampled img (Z.of_nat 0) (Z.of_nat 0)) 0).
    lia. }
  assert (Hcell : forall x y : nat, (x < 8)%nat -> (y < 8)%nat ->
                    cell_intensity img x y = PInt k).
  { intros x y Hx Hy. unfold cell_intensity, intensity. rewrite (Hflat x y Hx Hy).
    unfold Num.div. rewrite Z.mul_comm, Z.rem_mul, Z.quot_mul by lia. reflexivity. }
  assert (Hpixels : read_pixels (gd_resampled img) = repeat (PInt k) 64).
  { rewrite read_pixels_cells. unfold grid_cells.
    cbv [seq flat_map map app mbind list_bind mret list_ret fst snd repeat].
    rewrite !Hcell by lia. reflexivity. }
  assert (Hmean : computed_mean img = PInt k).
  { unfold computed_mean. rewrite <- read_pixels_cells, Hpixels.
    unfold Num.array_sum. rewrite (sum_repeat k 64 Hk) by lia.
    unfold Num.div. change (Z.of_nat 64) with 64.
    rewrite Z.add_0_l, Z.mul_comm, Z.rem_mul, Z.quot_mul by lia. reflexivity. }
  rewrite (generateHash_encoding _ _ _ Hload), Hpixels, Hmean.
  assert (Hbits : map (fun pixel => Num.gt pixel (PInt k)) (repeat (PInt k) 64)
                  = repeat false 64).
  { cbv [repeat map Num.gt]. rewrite Z.ltb_irrefl. reflexivity. }
  now rewrite Hbits, hex_encoding_zero.
Qed.

Lemma generateHash_flat_exact_witness :
  generateHash {[ "white.png" := png (solid 16777215) ]} "white.png"
  = Return "0000000000000000".
Proof.
  apply (generateHash_flat_exact {[ "white.png" := png (solid 16777215) ]} "white.png"
           (solid 16777215) 255).
  - vm_compute. reflexivity.
  - intros x y _ _. reflexivity.
Defined.

(** ** The callers *)

Lemma beyond_max (hash : string) (t1 t2 : Z) (row : Row) :
  beyond hash t1 row -> beyond hash t2 row -> beyond hash (Z.max t1 t2) row.
Proof.
  intros (d1 & Hd1 & H1) (d2 & Hd2 & H2). rewrite Hd1 in Hd2.
  apply Return_inj in Hd2. subst d2. exists d1. split; [assumption | lia].
Qed.

(** X21. [uploadWithCustomThreshold] checks with the caller's threshold
    and then calls [saveImage], which checks again with the default
    threshold 5: an upload is accepted only if every stored record is
    farther away than both, so a threshold below 5 is never in force. *)
Theorem uploadWithCustomThreshold_needs_both
    (this : Detector) (env : Env) (st st' : State) (file : Upload) (t : Z)
    (new_id : Z) (stored_name original hash : string) :
  uploadWithCustomThreshold this env st file t
  = (Return (SaveOk new_id stored_name original hash), st') ->
  generateHash (fs st) (tmp_name file) = Return hash /\
  Forall (beyond hash (Z.max t default_threshold)) (images st).
Proof.
  unfold uploadWithCustomThreshold.
  destruct (findDuplicate st (tmp_name file) t) as [[dup|]|msg] eqn:Hcustom;
    try discriminate.
  intros Hsave.
  destruct (saveImage_success_inv _ _ _ _ _ _ _ _ _ Hsave) as (Hhash' & Hdefault & _).
  destruct (saveImage_success_stores_upload _ _ _ _ _ _ _ _ _ _ Hsave)
    as (f & Htmp & _ & _ & _ & _ & Hfs & _).
  assert (Hhash : generateHash (fs st) (tmp_name file) = Return hash).
  { apply (generateHash_same_file (fs st') _ (uploadDir this ++ stored_name));
      [|exact Hhash']. rewrite Hfs, lookup_insert_eq. now rewrite Htmp. }
  split; [exact Hhash|].
  unfold findDuplicate in Hcustom. rewrite Hhash in Hcustom.
  apply scan_rows_none in Hcustom.
  rewrite Forall_forall in *. intros r Hr. apply beyond_max; auto.
Qed.

Lemma uploadWithCustomThreshold_needs_both_witness :
  generateHash (fs one_far_row) (tmp_name upload) = Return "0000000000000000" /\
  Forall (beyond "0000000000000000" (Z.max 0 default_threshold)) (images one_far_row).
Proof.
  apply (uploadWithCustomThreshold_needs_both detector calm one_far_row
           (uploadWithCustomThreshold detector calm one_far_row upload 0).2 upload 0
           2 "img_65a1b2c3d4e5f6.12345678.png" "holiday.png").
  rewrite (surjective_pairing (uploadWithCustomThreshold detector calm one_far_row upload 0)) at 1.
  f_equal.
Defined.

(** X22. admin.php guards the store: a request in a session that is not
    authenticated leaves files and table untouched and is never shown the
    gallery; the store changes only for an authenticated session, without
    [logout] in the query string and without a successful login in the
    same request, and then by exactly one [deleteImage] of the posted
    id. *)
Theorem admin_guards_store
    (ADMIN_PASSWORD UPLOAD_DIR : string) (by_date_desc : list Row -> list Row)
    (offset_of_float : spec_float -> nat)
    (session : gmap string bool) (st : State) (req : Request) :
  let answer :=
    admin ADMIN_PASSWORD UPLOAD_DIR by_date_desc offset_of_float session st req in
  (isAuthenticated session = false ->
     answer.2 = st /\ shown_rows answer.1.1 = [] /\
     forall p shown total pages, answer.1.1 <> Gallery p shown total pages) /\
  (answer.2 <> st ->
     isAuthenticated session = true /\
     get_logout req = false /\
     ~ (request_method req = "POST" /\ post_password req = Some ADMIN_PASSWORD) /\
     exists delete_id,
       post_delete_id req = Some delete_id /\
       answer.2 = (deleteImage (construct UPLOAD_DIR) st delete_id).2).
Proof.
  cbv zeta. unfold admin.
  destruct (get_logout req).
  { split; [intros _; repeat split; intros; discriminate | intros H; now destruct H]. }
  destruct (String.eqb_spec (request_method req) "POST") as [Hpost|Hget];
    [destruct (post_password req) as [password|]|].
  - unfold authenticate.
    destruct (String.eqb_spec password ADMIN_PASSWORD) as [->|Hwrong].
    { split; [intros _; repeat split; intros; discriminate | intros H; now destruct H]. }
    destruct (isAuthenticated session); cbn [negb].
    + split; [discriminate|]. destruct (post_delete_id req) as [d|]; cbn [snd fst].
      * intros _. repeat split; eauto. intros [_ [= ->]]. contradiction.
      * intros H. now destruct H.
    + split; [intros _; repeat split; intros; discriminate | intros H; now destruct H].
  - destruct (isAuthenticated session); cbn [negb].
    + split; [discriminate|]. destruct (post_delete_id req) as [d|]; cbn [snd fst].
      * intros _. repeat split; eauto. intros [_ [=]].
      * intros H. now destruct H.
    + split; [intros _; repeat split; intros; discriminate | intros H; now destruct H].
  - destruct (isAuthenticated session); cbn [negb].
    + split; [discriminate|]. destruct (post_delete_id req) as [d|]; cbn [snd fst].
      * intros _. repeat split; eauto. intros [Hpost _]. contradiction.
      * intros H. now destruct H.
    + split; [intros _; repeat split; intros; discriminate | intros H; now destruct H].
Qed.

Lemma admin_guards_store_witness :
  (admin "s3cret" "/var/www/uploads" reverse (fun _ => 0%nat) ∅ two_images (delete_request 1)).2 = two_images /\
  exists delete_id,
    post_delete_id (delete_request 1) = Some delete_id /\
    (admin "s3cret" "/var/www/uploads" reverse (fun _ => 0%nat) logged_in two_images (delete_request 1)).2
    = (deleteImage (construct "/var/www/uploads") two_images delete_id).2.
Proof.
  split.
  - apply (admin_guards_store "s3cret" "/var/www/uploads" reverse (fun _ => 0%nat) ∅ two_images
             (delete_request 1)).
    reflexivity.
  - apply (admin_guards_store "s3cret" "/var/www/uploads" reverse (fun _ => 0%nat) logged_in
             two_images
             (delete_request 1)).
    intros Heq. apply (f_equal images) in Heq. revert Heq. vm_compute. discriminate.
Defined.

(** X23. Logging in and out: a POST with the configured password (and no
    [logout] in the query string) answers with a redirect, marks the
    session authenticated and touches nothing else, even when it also
    carries a [delete_id]; a request with [logout] answers with a redirect
    and leaves a session that is not authenticated; a wrong password in a
    session that is not authenticated gets the login form with the error
    and leaves the session as it was. *)
Theorem admin_login_logout
    (ADMIN_PASSWORD UPLOAD_DIR : string) (by_date_desc : list Row -> list Row)
    (offset_of_float : spec_float -> nat)
    (session : gmap string bool) (st : State) (req : Request) :
  (get_logout req = false -> request_method req = "POST" ->
   post_password req = Some ADMIN_PASSWORD ->
     exists session',
       admin ADMIN_PASSWORD UPLOAD_DIR by_date_desc offset_of_float session st req
       = (Redirect "admin.php", session', st) /\
       isAuthenticated session' = true) /\
  (get_logout req = true ->
     exists session',
       admin ADMIN_PASSWORD UPLOAD_DIR by_date_desc offset_of_float session st req
       = (Redirect "admin.php", session', st) /\
       isAuthenticated session' = false) /\
  (forall password,
     get_logout req = false -> request_method req = "POST" ->
     post_password req = Some password -> password <> ADMIN_PASSWORD ->
     isAuthenticated session = false ->
       admin ADMIN_PASSWORD UPLOAD_DIR by_date_desc offset_of_float session st req
       = (LoginForm (Some "Invalid password"), session, st)).
Proof.
  unfold admin. split; [|split].
  - intros -> -> ->. cbn. unfold authenticate. rewrite String.eqb_refl.
    eexists. split; [reflexivity|].
    unfold isAuthenticated. rewrite lookup_insert_eq. now apply bool_decide_eq_true.
  - intros ->. eexists. split; [reflexivity|].
    unfold isAuthenticated, logout. rewrite lookup_empty. now apply bool_decide_eq_false.
  - intros password -> -> -> Hwrong Hanon. cbn. unfold authenticate.
    destruct (String.eqb_spec password ADMIN_PASSWORD); [contradiction|].
    now rewrite Hanon.
Qed.

Lemma admin_login_logout_witness :
  exists session',
    admin "s3cret" "/var/www/uploads" reverse (fun _ => 0%nat) ∅ two_images (login_request "s3cret")
    = (Redirect "admin.php", session', two_images) /\
    isAuthenticated session' = true.
Proof.
  apply (admin_login_logout "s3cret" "/var/www/uploads" reverse (fun _ => 0%nat) ∅ two_images
           (login_request "s3cret")); reflexivity.
Defined.

(** ** Paging through the gallery *)

Lemma pages_take {A B : Type} (f : A -> B) (l : list A) (k n : nat) :
  concat (map (fun p => map f (take k (drop (p * k) l))) (seq 0 n))
  = map f (take (n * k) l).
Proof.
  induction n as [|n IH]; [reflexivity|].
  rewrite seq_S, map_app, concat_app, IH. cbn [map concat plus].
  rewrite app_nil_r, <- map_app, take_take_drop. do 2 f_equal. lia.
Qed.

(** X24. Paging with [getAllImages]: with page size [limit] and the
    offsets 0, [limit], 2 [limit], ... the pages have at most [limit] rows
    each and, put one after the other, give the rows of the table in the
    server's order, each row once, as soon as the pages reach the size of
    the table (the server returning the rows in the same order, some
    arrangement of the table, for every page). *)
Theorem getAllImages_pages_cover
    (by_date_desc : list Row -> list Row) (st : State) (limit n : nat) :
  by_date_desc (images st) ≡ₚ images st ->
  (length (images st) <= n * limit)%nat ->
  concat (map (fun p => getAllImages by_date_desc st limit (p * limit)) (seq 0 n))
  = map select_info (by_date_desc (images st)) /\
  map select_info (by_date_desc (images st)) ≡ₚ map select_info (images st) /\
  forall p, (length (getAllImages by_date_desc st limit (p * limit)) <= limit)%nat.
Proof.
  intros Hperm Hreach. unfold getAllImages. split; [|split].
  - rewrite pages_take, take_ge; [reflexivity|].
    rewrite (Permutation_length Hperm). exact Hreach.
  - now apply Permutation_map.
  - intros p. rewrite length_map. apply firstn_le_length.
Qed.

Lemma getAllImages_pages_cover_witness :
  concat (map (fun p => getAllImages reverse two_images 1 (p * 1)) (seq 0 2))
  = map select_info (reverse (images two_images)) /\
  map select_info (reverse (images two_images)) ≡ₚ map select_info (images two_images) /\
  forall p, (length (getAllImages reverse two_images 1 (p * 1)) <= 1)%nat.
Proof.
  apply (getAllImages_pages_cover reverse two_images 1 2).
  - apply reverse_Permutation.
  - simpl. lia.
Defined.

(** X25. In admin.php a plain GET of page [p] by an authenticated session
    shows the twenty rows from offset [20 (max(1, p) - 1)], as long as
    that product stays within PHP's integer range, that is for
    [p <= 461168601842738791]; so the pages 1, 2, ..., n, for [n] up to
    that bound, shown one after the other are the first [20 n] rows of
    the listing. *)
Theorem admin_gallery_pages
    (ADMIN_PASSWORD UPLOAD_DIR : string) (by_date_desc : list Row -> list Row)
    (offset_of_float : spec_float -> nat)
    (session : gmap string bool) (st : State) (n : nat) :
  isAuthenticated session = true ->
  Z.of_nat n <= 461168601842738791 ->
  (forall p : Z,
     p <= 461168601842738791 ->
     (admin ADMIN_PASSWORD UPLOAD_DIR by_date_desc offset_of_float session st
        (page_request p)).1.1
     = Gallery (Z.max 1 p)
         (getAllImages by_date_desc st 20 (20 * Z.to_nat (Z.max 1 p - 1)))
         (Z.of_nat (length (images st)))
         (ceil (Num.div (PInt (Z.of_nat (length (images st)))) (PInt perPage)))) /\
  concat (map (fun p : nat =>
                 shown_rows (admin ADMIN_PASSWORD UPLOAD_DIR by_date_desc offset_of_float
                               session st (page_request (Z.of_nat (S p)))).1.1)
              (seq 0 n))
  = take (n * 20) (map select_info (by_date_desc (images st))).
Proof.
  intros Hauth Hn.
  assert (Hpage : forall p : Z,
     p <= 461168601842738791 ->
     (admin ADMIN_PASSWORD UPLOAD_DIR by_date_desc offset_of_float session st
        (page_request p)).1.1
     = Gallery (Z.max 1 p)
         (getAllImages by_date_desc st 20 (20 * Z.to_nat (Z.max 1 p - 1)))
         (Z.of_nat (length (images st)))
         (ceil (Num.div (PInt (Z.of_nat (length (images st)))) (PInt perPage)))).
  { intros p Hp. unfold admin, page_request. cbn [get_logout request_method post_password
      post_delete_id get_page String.eqb Ascii.eqb Bool.eqb].
    rewrite Hauth. cbn [negb fst].
    assert (Hsub : Num.sub (PInt (Z.max 1 p)) (PInt 1) = PInt (Z.max 1 p - 1)).
    { unfold Num.sub, Num.PHP_INT_MIN, Num.PHP_INT_MAX.
      change (2 ^ 63) with 9223372036854775808.
      destruct (_ <=? Z.max 1 p - 1) eqn:Hlo; [|apply Z.leb_gt in Hlo; lia].
      destruct (Z.max 1 p - 1 <=? _) eqn:Hhi; [reflexivity | apply Z.leb_gt in Hhi; lia]. }
    assert (Hmul : Num.mul (PInt (Z.max 1 p - 1)) (PInt perPage)
                   = PInt ((Z.max 1 p - 1) * perPage)).
    { unfold Num.mul, Num.PHP_INT_MIN, Num.PHP_INT_MAX, perPage.
      change (2 ^ 63) with 9223372036854775808.
      destruct (_ <=? (Z.max 1 p - 1) * 20) eqn:Hlo; [|apply Z.leb_gt in Hlo; lia].
      destruct ((Z.max 1 p - 1) * 20 <=? _) eqn:Hhi;
        [reflexivity | apply Z.leb_gt in Hhi; lia]. }
    rewrite Hsub, Hmul. do 2 f_equal. unfold perPage. lia. }
  split; [exact Hpage|].
  rewrite firstn_map, <- (pages_take select_info).
  f_equal. apply map_ext_in. intros p Hp%in_seq. rewrite Hpage by lia. cbn [shown_rows].
  unfold getAllImages. do 3 f_equal. lia.
Qed.

Lemma admin_gallery_pages_witness :
  concat (map (fun p : nat =>
                 shown_rows (admin "s3cret" "/var/www/uploads" reverse (fun _ => 0%nat)
                               logged_in two_images (page_request (Z.of_nat (S p)))).1.1)
              (seq 0 1))
  = take (1 * 20) (map select_info (reverse (images two_images))).
Proof.
  apply (admin_gallery_pages "s3cret" "/var/www/uploads" reverse (fun _ => 0%nat)
           logged_in two_images 1).
  - reflexivity.
  - lia.
Defined.

(** ** The constructor *)

Lemma rtrim_app_char (s : string) (c : ascii) : rtrim (s ++ String c EmptyString) c = rtrim s c.
Proof.
  induction s as [|a s IH].
  - rewrite string_app_empty_l. cbn [rtrim]. now rewrite Ascii.eqb_refl.
  - rewrite string_app_cons. cbn [rtrim]. now rewrite IH.
Qed.

Lemma rtrim_idempotent (s : string) (c : ascii) : rtrim (rtrim s c) c = rtrim s c.
Proof.
  induction s as [|a s IH]; [reflexivity|].
  cbn [rtrim]. destruct (rtrim s c) as [|b r] eqn:Hr.
  - destruct (Ascii.eqb a c) eqn:Hac; [reflexivity|]. cbn [rtrim]. now rewrite Hac.
  - cbn [rtrim] in *. now rewrite IH.
Qed.

(** X26. The constructor makes trailing slashes irrelevant: a directory
    given with one more slash gives the same detector, and constructing
    again from a detector's own directory changes nothing; every stored
    path is the trimmed directory, one slash, and the file name. *)
Theorem construct_trailing_slashes (dir : string) :
  construct (dir ++ "/") = construct dir /\
  construct (uploadDir (construct dir)) = construct dir /\
  forall file_name,
    uploadDir (construct dir) ++ file_name = rtrim dir "/" ++ String "/" file_name.
Proof.
  unfold construct. cbn [uploadDir]. split; [|split].
  - now rewrite rtrim_app_char.
  - now rewrite rtrim_app_char, rtrim_idempotent.
  - intros file_name. now rewrite string_app_assoc.
Qed.

(** ** An unreadable upload when duplicates are allowed *)

(** X27. With [allowDuplicates] true nothing looks at the image before it
    is moved: an upload that passes validation but that GD cannot decode
    is moved into the upload directory, fails to hash there, is removed
    again and is reported as a database error; the temporary file is
    gone and the table is unchanged. *)
Theorem saveImage_unreadable_when_allowed
    (this : Detector) (env : Env) (st : State) (file : Upload) (f : File) :
  error file = UPLOAD_ERR_OK ->
  fs st !! tmp_name file = Some f ->
  in_array (Some (finfo_mime f)) allowedTypes = true ->
  gd_decode f = None ->
  move_ok env = true ->
  saveImage this env st file true
  = (Return (SaveFailed ("Database error: Failed to load image: "
                           ++ new_file_path this env file)),
     {| fs := delete (new_file_path this env file) (delete (tmp_name file) (fs st));
        images := images st;
        auto_increment := auto_increment st |}).
Proof.
  intros Herr Htmp Hmime Hgd Hmove. unfold saveImage.
  rewrite Herr. unfold finfo_file. rewrite Htmp. cbn [fmap option_fmap option_map].
  rewrite Hmime. cbn [negb Z.eqb UPLOAD_ERR_OK].
  unfold move_uploaded_file. rewrite Htmp, Hmove.
  fold (new_file_name env file). fold (new_file_path this env file). cbn [fs].
  assert (Hload : loadImage (<[new_file_path this env file:=f]> (delete (tmp_name file) (fs st)))
                    (new_file_path this env file) = None).
  { unfold loadImage. rewrite lookup_insert_eq, Hgd.
    destruct (getimagesize_mime f); [|reflexivity].
    repeat match goal with |- context [if ?b then _ else _] => destruct b end; reflexivity. }
  unfold generateHash. rewrite Hload. unfold unlink. cbn [fs images auto_increment].
  now rewrite delete_insert_eq.
Qed.

Lemma saveImage_unreadable_when_allowed_witness :
  saveImage detector calm one_garbled_upload upload true
  = (Return (SaveFailed ("Database error: Failed to load image: "
                           ++ new_file_path detector calm upload)),
     {| fs := delete (new_file_path detector calm upload)
                     (delete (tmp_name upload) (fs one_garbled_upload));
        images := images one_garbled_upload;
        auto_increment := auto_increment one_garbled_upload |}).
Proof.
  apply (saveImage_unreadable_when_allowed detector calm one_garbled_upload upload garbled);
    reflexivity.
Defined.

(** ** Images with integer grey values *)

Lemma check_sum_all : all_below (Z.to_nat 16321) check_sum = true.
Proof. vm_cast_no_check (eq_refl true). Qed.

Lemma all_below_true (n : nat) (P : Z -> bool) :
  all_below n P = true -> forall z, 0 <= z < Z.of_nat n -> P z = true.
Proof.
  induction n as [|n IH]; cbn [all_below]; intros Hall z Hz; [lia|].
  apply andb_true_iff in Hall as [Hn Hrest].
  destruct (Z.eq_dec z (Z.of_nat n)) as [->|Hne]; [exact Hn | apply IH; [exact Hrest | lia]].
Qed.

Lemma check_sum_true (S : Z) : 0 <= S <= 16320 -> check_sum S = true.
Proof.
  intros HS. apply (all_below_true (Z.to_nat 16321) check_sum check_sum_all).
  rewrite Z2Nat.id; lia.
Qed.

Lemma gt_float_average (S k : Z) :
  0 <= S <= 16320 -> 0 <= k <= 255 -> S mod 64 <> 0 ->
  SFltb (SFdiv Num.prec Num.emax (Num.of_int S) (Num.of_int 64)) (Num.of_int k)
  = (S <? 64 * k).
Proof.
  intros HS Hk Hrest. pose proof (check_sum_true S HS) as Hsum.
  unfold check_sum in Hsum. apply Z.eqb_neq in Hrest. rewrite Hrest in Hsum.
  cbv zeta in Hsum. rewrite forallb_forall in Hsum.
  apply Bool.eqb_prop. apply (Hsum (k, Num.of_int k)).
  unfold grey_table. apply in_map_iff. exists k. split; [reflexivity|].
  apply list_elem_of_In, elem_of_seqZ. lia.
Qed.

Lemma gt_integer_average (S k : Z) :
  0 <= S <= 16320 -> 0 <= k <= 255 ->
  Num.gt (PInt k) (Num.div (PInt S) (PInt 64)) = (S <? 64 * k).
Proof.
  intros HS Hk. unfold Num.div. change (negb (64 =? 0)) with true. cbn [andb].
  rewrite Z.rem_mod_nonneg by lia.
  destruct (Z.eqb_spec (S mod 64) 0) as [Hdiv|Hrest].
  - cbn [Num.gt]. rewrite Z.quot_div_nonneg by lia.
    apply Z.mod_divide in Hdiv as [q ->]; [|lia].
    rewrite Z.div_mul by lia.
    destruct (Z.ltb_spec q k), (Z.ltb_spec (q * 64) (64 * k)); (reflexivity || lia).
  - cbn [Num.gt Num.to_float]. now apply gt_float_average.
Qed.

Lemma sum_integers (l : list Z) :
  Forall (fun k => 0 <= k <= 255) l ->
  forall a, 0 <= a <= 100000 - Z.of_nat (length l) * 255 ->
    fold_left Num.add (map PInt l) (PInt a) = PInt (a + fold_right Z.add 0 l) /\
    0 <= fold_right Z.add 0 l <= Z.of_nat (length l) * 255.
Proof.
  induction 1 as [|k l Hk _ IH]; intros a Ha; cbn [map fold_left fold_right length] in *.
  - split; [f_equal|]; lia.
  - destruct (IH (a + k)) as [IHsum IHbound]; [lia|].
    rewrite add_small by lia. rewrite IHsum. split; [f_equal|]; lia.
Qed.

Lemma grid_cells_in_range : Forall (fun c : nat * nat => (c.1 < 8)%nat /\ (c.2 < 8)%nat) grid_cells.
Proof. unfold grid_cells. cbn. repeat (constructor; [cbn; lia|]). constructor. Qed.

Lemma fold_right_add_thirds (l : list Z) :
  Forall (fun s => s mod 3 = 0) l ->
  fold_right Z.add 0 l = 3 * fold_right Z.add 0 (map (fun s => s / 3) l).
Proof.
  induction 1 as [|s l Hs _ IH]; cbn [map fold_right]; [reflexivity|].
  rewrite IH. pose proof (Z.div_mod s 3). lia.
Qed.

(** X28. When the three channels of every cell add up to a multiple of
    three, so that every intensity is an integer, the hash is the exact
    average hash: the bit of the cell in column [x] of row [y] is 1
    exactly when the intensity of that cell is strictly greater than the
    mean intensity of the 64 cells. *)
Theorem generateHash_exact_on_integer_intensities
    (files : gmap string File) (path : string) (img : GdImage) :
  loadImage files path = Some img ->
  (forall x y : nat, (x < 8)%nat -> (y < 8)%nat -> channel_sum img x y mod 3 = 0) ->
  exists h,
    generateHash files path = Return h /\
    forall x y : nat, (x < 8)%nat -> (y < 8)%nat ->
      fingerprint_bits h !! (8 * y + x)%nat = Some (exact_above_mean img x y).
Proof.
  intros Hload Hthree.
  destruct (generateHash_bits_computed files path img Hload) as (h & Hgen & _ & _ & Hbits).
  exists h. split; [exact Hgen|].
  assert (Hrange : forall x y, 0 <= channel_sum img x y / 3 <= 255).
  { intros x y. unfold channel_sum. cbv zeta.
    pose proof (channel_range (gd_resampled img (Z.of_nat x) (Z.of_nat y)) 2).
    pose proof (channel_range (gd_resampled img (Z.of_nat x) (Z.of_nat y)) 1).
    pose proof (channel_range (gd_resampled img (Z.of_nat x) (Z.of_nat y)) 0).
    split; [apply Z.div_pos; lia | apply Z.div_le_upper_bound; lia]. }
  assert (Hcell : forall x y : nat, (x < 8)%nat -> (y < 8)%nat ->
                    cell_intensity img x y = PInt (channel_sum img x y / 3)).
  { intros x y Hx Hy. specialize (Hthree x y Hx Hy). specialize (Hrange x y).
    unfold cell_intensity, intensity. fold (channel_sum img x y).
    unfold Num.div. change (negb (3 =? 0)) with true. cbn [andb].
    assert (0 <= channel_sum img x y) by (pose proof (Z.div_mod (channel_sum img x y) 3); lia).
    rewrite Z.rem_mod_nonneg, Hthree, Z.quot_div_nonneg by lia. reflexivity. }
  set (sums := map (fun c => channel_sum img c.1 c.2) grid_cells).
  set (greys := map (fun s => s / 3) sums).
  assert (Hpixels : map (fun c => cell_intensity img c.1 c.2) grid_cells = map PInt greys).
  { unfold greys, sums. rewrite !map_map. apply map_ext_in. intros c Hc.
    pose proof grid_cells_in_range as Hin. rewrite Forall_forall in Hin.
    apply list_elem_of_In, Hin in Hc as [Hx Hy]. now apply Hcell. }
  assert (Hgreys : Forall (fun k => 0 <= k <= 255) greys).
  { unfold greys, sums. rewrite map_map. apply Forall_forall. intros k Hk.
    apply list_elem_of_In, in_map_iff in Hk as (c & <- & _). apply Hrange. }
  assert (Hlen : length greys = 64%nat) by reflexivity.
  destruct (sum_integers greys Hgreys 0) as [Hsum Hbound]; [rewrite Hlen; lia|].
  rewrite Hlen in Hbound.
  assert (Hmean : computed_mean img = Num.div (PInt (fold_right Z.add 0 greys)) (PInt 64)).
  { unfold computed_mean, Num.array_sum. now rewrite Hpixels, Hsum. }
  assert (Htotal : grid_total img = 3 * fold_right Z.add 0 greys).
  { unfold grid_total. fold sums. apply fold_right_add_thirds.
    unfold sums. apply Forall_forall. intros s Hs.
    apply list_elem_of_In, in_map_iff in Hs as (c & <- & Hc).
    pose proof grid_cells_in_range as Hin. rewrite Forall_forall in Hin.
    apply list_elem_of_In, Hin in Hc as [Hx Hy]. now apply Hthree. }
  intros x y Hx Hy. rewrite (Hbits x y Hx Hy). f_equal.
  rewrite (Hcell x y Hx Hy), Hmean, gt_integer_average by (lia || apply Hrange).
  unfold exact_above_mean. rewrite Htotal.
  specialize (Hthree x y Hx Hy). pose proof (Z.div_mod (channel_sum img x y) 3).
  destruct (Z.ltb_spec (fold_right Z.add 0 greys) (64 * (channel_sum img x y / 3))),
           (Z.ltb_spec (3 * fold_right Z.add 0 greys) (64 * channel_sum img x y));
    (reflexivity || lia).
Qed.

Lemma generateHash_exact_on_integer_intensities_witness :
  exists h,
    generateHash {[ "halves.png" := png (two_tone 0 16777215) ]} "halves.png" = Return h /\
    forall x y : nat, (x < 8)%nat -> (y < 8)%nat ->
      fingerprint_bits h !! (8 * y + x)%nat
      = Some (exact_above_mean (two_tone 0 16777215) x y).
Proof.
  apply (generateHash_exact_on_integer_intensities
           {[ "halves.png" := png (two_tone 0 16777215) ]} "halves.png"
           (two_tone 0 16777215)).
  - vm_compute. reflexivity.
  - intros x y _ _. unfold channel_sum, two_tone. cbn [gd_resampled].
    destruct (Z.of_nat y <? 4); reflexivity.
Defined.
